(** * amp.dev: the deployment task file and the code-preview partial

    A shallow embedding of [gulpfile.js/deploy.js] (the gulp tasks that
    build, publish and roll out the container image) and of
    [frontend/templates/views/partials/code-preview/code-preview.j2]
    (the Jinja partial of the code-preview widget), with the properties
    of the repository's specification stated and proved over them. *)

From Stdlib Require Import String Ascii List Bool NArith ZArith Lia.
From Stdlib Require Import Numbers.DecimalString Numbers.DecimalPos Numbers.DecimalN.
Import ListNotations.

Local Open Scope list_scope.
Local Open Scope string_scope.

(** ** Strings as JavaScript and Jinja handle them *)

Module Text.

(** [String.prototype.includes]: [includes needle hay] holds when [needle]
    occurs in [hay] as a contiguous run of characters. *)
Fixpoint includes (needle hay : string) : bool :=
  String.prefix needle hay ||
  match hay with
  | EmptyString => false
  | String _ rest => includes needle rest
  end.

(** A string is falsy exactly when it is empty. *)
Definition truthy (s : string) : bool :=
  match s with
  | EmptyString => false
  | String _ _ => true
  end.

(** Conversion of a non-negative integral number to a string, as a template
    literal does it: plain decimal digits (every value of [Date.now()] is
    far below the 1e21 from which JavaScript switches to exponents). *)
Definition of_N (n : N) : string :=
  NilZero.string_of_uint (N.to_uint n).

(** [spaces n]: the run of [n] blanks an indented continuation line leaves
    inside a template literal. *)
Fixpoint spaces (n : nat) : string :=
  match n with
  | O => EmptyString
  | S k => String " " (spaces k)
  end.

(** The character [c] occurs nowhere in [s]. *)
Fixpoint free_of (c : ascii) (s : string) : bool :=
  match s with
  | EmptyString => true
  | String a rest => negb (Ascii.eqb a c) && free_of c rest
  end.

End Text.

(** ** The deployment tasks: [gulpfile.js/deploy.js] *)

Module Deploy.
Import Text.

(** *** The values of a commandline flag

    [mri] hands a flag over as a string, as a number when its text is
    numeric ([--tag 0] gives the number 0), as [true] when the flag
    stands without a value, as [false] for [--no-tag], and as an array
    of such values when the flag is repeated; an absent flag is
    undefined. A number is held by the two things the task file uses of
    it: whether it is zero, which makes it falsy, and the text a template
    literal prints for it. *)
Record JsNumber := {
  number_is_zero : bool;
  number_text : string
}.

Inductive Scalar :=
  | SBool (b : bool)
  | SNumber (n : JsNumber)
  | SString (s : string).

Inductive Arg :=
  | One (v : Scalar)
  | Many (first second : Scalar) (others : list Scalar).

Definition scalar_truthy (v : Scalar) : bool :=
  match v with
  | SBool b => b
  | SNumber n => negb (number_is_zero n)
  | SString s => truthy s
  end.

Definition scalar_text (v : Scalar) : string :=
  match v with
  | SBool b => if b then "true" else "false"
  | SNumber n => number_text n
  | SString s => s
  end.

(** An array is truthy whatever it holds. *)
Definition arg_truthy (a : Arg) : bool :=
  match a with
  | One v => scalar_truthy v
  | Many _ _ _ => true
  end.

(** What [${a}] and [String.prototype.includes] make of the value: an
    array prints its elements with commas between them. *)
Definition arg_text (a : Arg) : string :=
  match a with
  | One v => scalar_text v
  | Many first second others =>
      String.concat "," (map scalar_text (first :: second :: others))
  end.

Definition str (s : string) : Arg := One (SString s).

(** A number prints as some text, never as nothing. *)
Definition numbers_print (a : Arg) : Prop :=
  match a with
  | One (SNumber n) => number_text n <> EmptyString
  | _ => True
  end.

(** [a || d] for a flag [a] and a string [d]. *)
Definition or_default (a : option Arg) (d : string) : Arg :=
  match a with
  | Some v => if arg_truthy v then v else str d
  | None => str d
  end.

(** *** What the module reads when it is loaded

    [argv] is the object [mri] returns for the commandline (only its [tag]
    and [project] properties are read); [git_version] stands for the
    [version] export of [@lib/utils/git], [Date_now] for the value of
    [Date.now()], [ROOT] for the [paths.ROOT] export of
    [@lib/utils/project] and [join] for [path.join]. *)
Record Env := {
  argv_tag : option Arg;
  argv_project : option Arg;
  git_version : string;
  Date_now : N;
  ROOT : string;
  join : string -> string -> string
}.

Definition PREFIX : string := "amp-dev".
Definition PACKAGER_PREFIX : string := PREFIX ++ "-packager".

Definition TIMESTAMP (env : Env) : N := Date_now env.

(** [argv.tag || `${version}-${TIMESTAMP}`] *)
Definition TAG (env : Env) : Arg :=
  or_default (argv_tag env) (git_version env ++ "-" ++ of_N (TIMESTAMP env)).

(** [argv.project || 'amp-dev-230314'] *)
Definition PROJECT_ID (env : Env) : Arg :=
  or_default (argv_project env) "amp-dev-230314".

Definition DEFAULT_REGION : string := "us-east1".
Definition DEFAULT_ZONE : string := "us-east1-c".

(** *** The configuration object *)

Record Group := {
  group_name : string;
  group_zone : string
}.

Record Instance := {
  instance_groups : list Group;
  instance_template : string;
  instance_count : N;
  instance_machine : string
}.

Record Gcloud := {
  gcloud_project : Arg;
  gcloud_region : string;
  gcloud_zone : string
}.

Record Image := {
  image_name : string;
  image_current : string
}.

(** The options object handed to [sh]: [{quiet: true}] in [verifyTag],
    [{workingDir: ...}] for the packager. *)
Record ShOpts := {
  opt_quiet : bool;
  opt_workingDir : option string
}.

Record Packager := {
  packager_opts : ShOpts;
  packager_prefix : string;
  packager_tag : Arg;
  packager_instance : Instance;
  packager_image : Image
}.

Record Config := {
  config_prefix : string;
  config_tag : Arg;
  config_instance : Instance;
  config_gcloud : Gcloud;
  config_image : Image;
  config_packager : Packager
}.

(** The object literal bound to [config]. *)
Definition config (env : Env) : Config :=
  {| config_prefix := PREFIX;
     config_tag := TAG env;
     config_instance :=
       {| instance_groups :=
            [ {| group_name := "ig-" ++ PREFIX ++ "-europe";
                 group_zone := "europe-west2-c" |};
              {| group_name := "ig-" ++ PREFIX ++ "-zone2";
                 group_zone := "us-east1-b" |} ];
          instance_template := "it-" ++ PREFIX ++ "-" ++ arg_text (TAG env);
          instance_count := 2;
          instance_machine := "n1-standard-2" |};
     config_gcloud :=
       {| gcloud_project := PROJECT_ID env;
          gcloud_region := DEFAULT_REGION;
          gcloud_zone := DEFAULT_ZONE |};
     config_image :=
       {| image_name := "gcr.io/" ++ arg_text (PROJECT_ID env) ++ "/" ++ PREFIX;
          image_current :=
            "gcr.io/" ++ arg_text (PROJECT_ID env) ++ "/" ++ PREFIX
            ++ ":" ++ arg_text (TAG env) |};
     config_packager :=
       {| packager_opts :=
            {| opt_quiet := false;
               opt_workingDir := Some (join env (ROOT env) "packager") |};
          packager_prefix := PACKAGER_PREFIX;
          packager_tag := TAG env;
          packager_instance :=
            {| instance_groups :=
                 [ {| group_name := "ig-" ++ PACKAGER_PREFIX;
                      group_zone := "us-east1-b" |} ];
               instance_template :=
                 "it-" ++ PACKAGER_PREFIX ++ "-" ++ arg_text (TAG env);
               instance_count := 1;
               instance_machine := "n1-standard-1" |};
          packager_image :=
            {| image_name :=
                 "gcr.io/" ++ arg_text (PROJECT_ID env) ++ "/"
                 ++ PACKAGER_PREFIX;
               image_current :=
                 "gcr.io/" ++ arg_text (PROJECT_ID env) ++ "/"
                 ++ PACKAGER_PREFIX ++ ":" ++ arg_text (TAG env) |} |} |}.

(** *** Property access on [config.instance]

    The object has the four own properties of the literal; reading any
    other key yields [undefined]. *)
Inductive JsValue :=
  | JUndefined
  | JString (s : string)
  | JNumber (n : N)
  | JGroups (gs : list Group).

Definition instance_get (i : Instance) (key : string) : JsValue :=
  if String.eqb key "groups" then JGroups (instance_groups i)
  else if String.eqb key "template" then JString (instance_template i)
  else if String.eqb key "count" then JNumber (instance_count i)
  else if String.eqb key "machine" then JString (instance_machine i)
  else JUndefined.

(** What [${v}] contributes to a template literal. An array converts by
    joining its elements with commas, a plain object as [[object Object]]. *)
Definition to_template (v : JsValue) : string :=
  match v with
  | JUndefined => "undefined"
  | JString s => s
  | JNumber n => of_N n
  | JGroups gs => String.concat "," (map (fun _ => "[object Object]") gs)
  end.

(** *** The effects of a task

    A task touches the outside world in two ways only: [sh] spawns a shell
    command and [console.log] prints. Both are recorded, in the order in
    which they happen, together with the moments at which gulp calls a
    task function. What [console.log] is given is recorded argument by
    argument: a string of the task file ([Words]) or a value that comes
    from the commandline ([Value]), which Node formats by its kind. *)
Inductive Printed :=
  | Words (s : string)
  | Value (v : Arg).

Inductive Event :=
  | Started (task : string)
  | Sh (cmd : string) (opts : option ShOpts)
  | Log (args : list Printed).

(** [sh] is the export of [@lib/utils/sh.js]: it runs the command and
    returns a promise which resolves to the text the command wrote, or
    rejects when the command fails. The outcome is given by the outside
    world, which may take everything that happened before into account. *)
Class Shell := {
  ShError : Type;
  sh_reply : list Event -> string -> option ShOpts -> ShError + string
}.

(** The module-level binding [config] and the record of what happened. *)
Record State := {
  st_config : Config;
  st_trace : list Event
}.

Section Tasks.
Context {shell : Shell}.

(** A failed command (the rejection of [sh] passed on) or an [Error]
    object raised by the task file itself with [throw new Error(msg)]. *)
Inductive Error :=
  | Rejected (e : ShError)
  | Thrown (msg : string).

(** A settled promise. *)
Definition Promise (A : Type) : Type := (Error + A)%type.

(** A computation: from the state to a settled promise and the state
    it leaves. *)
Definition M (A : Type) : Type := State -> Promise A * State.

Definition ret {A} (a : A) : M A := fun s => (inr a, s).

(** [await m] followed by [k]: a rejection ends the function. *)
Definition bind {A B} (m : M A) (k : A -> M B) : M B :=
  fun s =>
    match m s with
    | (inl e, s') => (inl e, s')
    | (inr a, s') => k a s'
    end.

Definition throw {A} (msg : string) : M A := fun s => (inl (Thrown msg), s).

Definition void {A} (m : M A) : M unit := bind m (fun _ => ret tt).

Definition emit (e : Event) (s : State) : State :=
  {| st_config := st_config s; st_trace := st_trace s ++ [e] |}.

Definition read_config : M Config := fun s => (inr (st_config s), s).

Definition console_log (args : list Printed) : M unit :=
  fun s => (inr tt, emit (Log args) s).

Definition sh (cmd : string) (opts : option ShOpts) : M string :=
  fun s =>
    (match sh_reply (st_trace s) cmd opts with
     | inl e => inl (Rejected e)
     | inr out => inr out
     end,
     emit (Sh cmd opts) s).

(** [l.map(f)] where [f] returns a promise: every call is made, one after
    the other, whatever the outcome of the calls before it. *)
Fixpoint map_calls {A B} (f : A -> M B) (l : list A)
  : State -> list (Promise B) * State :=
  fun s =>
    match l with
    | [] => ([], s)
    | x :: rest =>
        let (p, s1) := f x s in
        let (ps, s2) := map_calls f rest s1 in
        (p :: ps, s2)
    end.

(** [Promise.all]: the list of the values when every promise resolves,
    and a rejection otherwise (here that of the first rejected promise in
    list order; which one settles first in time is not modelled). *)
Fixpoint Promise_all {A} (ps : list (Promise A)) : Promise (list A) :=
  match ps with
  | [] => inr []
  | inl e :: _ => inl e
  | inr a :: rest =>
      match Promise_all rest with
      | inl e => inl e
      | inr l => inr (a :: l)
      end
  end.

Definition await {A} (p : Promise A) : M A := fun s => (p, s).

End Tasks.

Declare Scope task_scope.
Delimit Scope task_scope with task.
Notation "x <- m ;; k" := (bind m (fun x => k))
  (at level 100, m at next level, right associativity) : task_scope.
Notation "m ;; k" := (bind m (fun _ => k))
  (at level 100, right associativity) : task_scope.

Section TaskFunctions.
Context {shell : Shell}.
Local Open Scope task_scope.

(** A synchronous stretch of code, which cannot fail. *)
Definition calls {A} (f : State -> A * State) : M A :=
  fun s => let (a, s') := f s in (inr a, s').

(** The line feed of a ['\n'] escape. *)
Definition LF : string := String (ascii_of_nat 10) EmptyString.

(** Verifies the commit SHA1 (config.tag) hasn't already been deployed. *)
Definition verifyTag : M unit :=
  cfg <- read_config ;;
  tags <- sh ("gcloud container images list-tags "
              ++ image_name (config_image cfg))
             (Some {| opt_quiet := true; opt_workingDir := None |}) ;;
  cfg <- read_config ;;
  console_log [Words "Verifying build tag"; Value (config_tag cfg)] ;;
  if includes (arg_text (config_tag cfg)) tags then
    throw ("The commit " ++ arg_text (config_tag cfg)
           ++ " you are trying to build has "
           ++ "already been deployed!")
  else ret tt.

(** Initialize the Google Cloud project. *)
Definition gcloudSetup : M unit :=
  sh "gcloud auth configure-docker" None ;;
  cfg <- read_config ;;
  sh ("gcloud config set compute/region " ++ gcloud_region (config_gcloud cfg))
     None ;;
  cfg <- read_config ;;
  sh ("gcloud config set compute/zone " ++ gcloud_zone (config_gcloud cfg))
     None ;;
  ret tt.

(** Builds a local docker image for testing. *)
Definition imageBuild : M string :=
  cfg <- read_config ;;
  sh ("docker build --tag " ++ image_current (config_image cfg) ++ " .") None.

(** Starts a local docker image for testing. *)
Definition imageRunLocal : M string :=
  cfg <- read_config ;;
  sh ("docker run -d -p 8082:80 " ++ image_current (config_image cfg)) None.

(** Builds and uploads a docker image to Google Cloud Container Registry. *)
Definition imageUpload : M string :=
  cfg <- read_config ;;
  sh ("gcloud builds submit --tag " ++ image_current (config_image cfg) ++ " .")
     None.

(** Lists all existing images in the Google Cloud Container Registry. *)
Definition imageList : M string :=
  cfg <- read_config ;;
  sh ("gcloud container images list-tags " ++ image_name (config_image cfg))
     None.

(** Create a new VM instance template based on the latest docker image. *)
Definition instanceTemplateCreate : M string :=
  cfg <- read_config ;;
  sh ("gcloud compute instance-templates create-with-container "
      ++ instance_template (config_instance cfg) ++ " "
      ++ spaces 17 ++ "--container-image "
      ++ image_current (config_image cfg) ++ " "
      ++ spaces 17 ++ "--machine-type "
      ++ instance_machine (config_instance cfg) ++ " "
      ++ spaces 17 ++ "--tags http-server,https-server "
      ++ spaces 17 ++ "--scopes default,datastore")
     None.

(** Start a rolling update to a new VM instance template. *)
Definition updateStart : M unit :=
  cfg <- read_config ;;
  updates <- calls (map_calls (fun group =>
      sh ("gcloud beta compute instance-groups managed rolling-action "
          ++ spaces 17 ++ "start-update " ++ group_name group ++ " "
          ++ spaces 17 ++ "--version template="
          ++ instance_template (config_instance cfg) ++ " "
          ++ spaces 17 ++ "--zone=" ++ group_zone group ++ " "
          ++ spaces 17 ++ "--min-ready 4m "
          ++ spaces 17 ++ "--max-surge 1 "
          ++ spaces 17 ++ "--max-unavailable 1")
         None)
    (instance_groups (config_instance cfg))) ;;
  await (Promise_all updates) ;;
  console_log
    [Words ("Rolling update started, this can take a few minutes..."
            ++ LF ++ LF
            ++ "Run `gulp updateStatus` to check the current status. "
            ++ "`isStable => true` once "
            ++ "when the upate has been finished.")].

(** Returns the current status of an active rolling update. *)
Definition updateStatus : M (list string) :=
  cfg <- read_config ;;
  updates <- calls (map_calls (fun group =>
      sh ("gcloud beta compute instance-groups managed describe "
          ++ group_name group ++ " "
          ++ spaces 13 ++ "--zone=" ++ group_zone group)
         None)
    (instance_groups (config_instance cfg))) ;;
  await (Promise_all updates).

(** Stops a rolling update to a new VM instance template. The property
    read is [config.instance.group]. *)
Definition updateStop : M string :=
  cfg <- read_config ;;
  sh ("gcloud compute instance-groups managed rolling-action "
      ++ spaces 4 ++ "stop-proactive-update "
      ++ to_template (instance_get (config_instance cfg) "group"))
     None.

(** Create a new VM instance template for the packager. *)
Definition packagerInstanceTemplateCreate : M string :=
  cfg <- read_config ;;
  sh ("gcloud compute instance-templates create-with-container "
      ++ spaces 35
      ++ instance_template (packager_instance (config_packager cfg)) ++ " "
      ++ spaces 17 ++ "--container-image "
      ++ image_current (packager_image (config_packager cfg)) ++ " "
      ++ spaces 17 ++ "--machine-type "
      ++ instance_machine (packager_instance (config_packager cfg)))
     (Some (packager_opts (config_packager cfg))).

(** Builds and uploads the packager docker image. *)
Definition packagerImageUpload : M string :=
  cfg <- read_config ;;
  sh ("gcloud builds submit --tag "
      ++ image_current (packager_image (config_packager cfg)) ++ " .")
     (Some (packager_opts (config_packager cfg))).

(** Start a rolling update to a new packager VM instance template. *)
Definition packagerUpdateStart : M unit :=
  cfg <- read_config ;;
  updates <- calls (map_calls (fun group =>
      sh ("gcloud beta compute instance-groups managed rolling-action "
          ++ spaces 17 ++ "start-update " ++ group_name group ++ " "
          ++ spaces 17 ++ "--version template="
          ++ instance_template (packager_instance (config_packager cfg)) ++ " "
          ++ spaces 17 ++ "--zone=" ++ group_zone group ++ " "
          ++ spaces 17 ++ "--min-ready 1m "
          ++ spaces 17 ++ "--max-surge 1 "
          ++ spaces 17 ++ "--max-unavailable 1")
         (Some (packager_opts (config_packager cfg))))
    (instance_groups (packager_instance (config_packager cfg)))) ;;
  await (Promise_all updates) ;;
  console_log
    [Words "Rolling update started, this can take a few minutes..."].

(** *** gulp's [series]

    A task function as gulp sees it: its [name] property and what calling
    it does; the value a task resolves to is dropped. [series] calls the
    functions one after the other, each once the one before it has
    completed, and stops at the first one that fails, with its error. *)
Record Task := {
  task_name : string;
  task_body : M unit
}.

Definition task {A} (name : string) (f : M A) : Task :=
  {| task_name := name; task_body := void f |}.

Fixpoint series (tasks : list Task) : M unit :=
  match tasks with
  | [] => ret tt
  | t :: rest =>
      calls (fun s => (tt, emit (Started (task_name t)) s)) ;;
      task_body t ;;
      series rest
  end.

(** *** The exports *)

Definition deploy_steps : list Task :=
  [ task "verifyTag" verifyTag;
    task "imageUpload" imageUpload;
    task "instanceTemplateCreate" instanceTemplateCreate;
    task "updateStart" updateStart ].

Definition deploy : M unit := series deploy_steps.

Definition packagerDeploy_steps : list Task :=
  [ task "packagerImageUpload" packagerImageUpload;
    task "packagerInstanceTemplateCreate" packagerInstanceTemplateCreate;
    task "packagerUpdateStart" packagerUpdateStart ].

Definition packagerDeploy : M unit := series packagerDeploy_steps.

(** Every property of [exports], under its name. *)
Definition exports : list (string * M unit) :=
  [ ("verifyTag", void verifyTag);
    ("gcloudSetup", void gcloudSetup);
    ("deploy", deploy);
    ("imageBuild", void imageBuild);
    ("imageList", void imageList);
    ("imageRunLocal", void imageRunLocal);
    ("imageUpload", void imageUpload);
    ("instanceTemplateCreate", void instanceTemplateCreate);
    ("packagerDeploy", packagerDeploy);
    ("packagerImageUpload", void packagerImageUpload);
    ("packagerInstanceTemplateCreate", void packagerInstanceTemplateCreate);
    ("packagerUpdateStart", void packagerUpdateStart);
    ("updateStop", void updateStop);
    ("updateStatus", void updateStatus);
    ("updateStart", void updateStart) ].

(** The state in which the first task of a process starts. *)
Definition initial (env : Env) : State :=
  {| st_config := config env; st_trace := [] |}.

End TaskFunctions.

(** *** The packager pipeline as the specification words it

    The specification describes [packagerDeploy] as the [deploy] composite
    applied to the packager's configuration. [packager_view] is that
    configuration (the [prefix], [tag], [instance] and [image] of
    [config.packager] in the places of the main ones), [with_config] runs
    a computation against another configuration, and
    [packagerDeploy_as_specified] is the composite so described. It is
    compared with [packagerDeploy], the composite of the source. *)
Definition packager_view (cfg : Config) : Config :=
  {| config_prefix := packager_prefix (config_packager cfg);
     config_tag := packager_tag (config_packager cfg);
     config_instance := packager_instance (config_packager cfg);
     config_gcloud := config_gcloud cfg;
     config_image := packager_image (config_packager cfg);
     config_packager := config_packager cfg |}.

Definition with_config {shell : Shell} {A} (f : Config -> Config) (m : M A)
  : M A :=
  fun s =>
    let (r, s') := m {| st_config := f (st_config s);
                        st_trace := st_trace s |} in
    (r, {| st_config := st_config s; st_trace := st_trace s' |}).

Definition packagerDeploy_as_specified {shell : Shell} : M unit :=
  with_config packager_view deploy.

(** *** Reading a trace *)

(** The names of the task functions gulp called, in order. *)
Fixpoint started (tr : list Event) : list string :=
  match tr with
  | [] => []
  | Started name :: rest => name :: started rest
  | _ :: rest => started rest
  end.

(** The shell commands spawned, in order. *)
Fixpoint commands (tr : list Event) : list string :=
  match tr with
  | [] => []
  | Sh cmd _ :: rest => cmd :: commands rest
  | _ :: rest => commands rest
  end.

(** What a computation adds to the trace of the state it starts from. *)
Definition added {A} (old : list A) (new : list A) : list A :=
  skipn (List.length old) new.

(** *** The commands and messages the properties speak of *)

(** The registry query of [verifyTag] and the options it is run with. *)
Definition list_tags_query (cfg : Config) : string :=
  "gcloud container images list-tags " ++ image_name (config_image cfg).

Definition quiet : option ShOpts :=
  Some {| opt_quiet := true; opt_workingDir := None |}.

(** The message of the error [verifyTag] raises. *)
Definition collision_message (cfg : Config) : string :=
  "The commit " ++ arg_text (config_tag cfg)
  ++ " you are trying to build has already been deployed!".

(** The rolling-update command of [updateStart] for one group. *)
Definition start_update_command (cfg : Config) (group : Group) : string :=
  "gcloud beta compute instance-groups managed rolling-action "
  ++ spaces 17 ++ "start-update " ++ group_name group ++ " "
  ++ spaces 17 ++ "--version template="
  ++ instance_template (config_instance cfg) ++ " "
  ++ spaces 17 ++ "--zone=" ++ group_zone group ++ " "
  ++ spaces 17 ++ "--min-ready 4m "
  ++ spaces 17 ++ "--max-surge 1 "
  ++ spaces 17 ++ "--max-unavailable 1".

(** The commands of the three packager steps. *)
Definition packager_upload_command (cfg : Config) : string :=
  "gcloud builds submit --tag "
  ++ image_current (packager_image (config_packager cfg)) ++ " .".

Definition packager_template_command (cfg : Config) : string :=
  "gcloud compute instance-templates create-with-container "
  ++ spaces 35
  ++ instance_template (packager_instance (config_packager cfg)) ++ " "
  ++ spaces 17 ++ "--container-image "
  ++ image_current (packager_image (config_packager cfg)) ++ " "
  ++ spaces 17 ++ "--machine-type "
  ++ instance_machine (packager_instance (config_packager cfg)).

Definition packager_update_command (cfg : Config) (group : Group) : string :=
  "gcloud beta compute instance-groups managed rolling-action "
  ++ spaces 17 ++ "start-update " ++ group_name group ++ " "
  ++ spaces 17 ++ "--version template="
  ++ instance_template (packager_instance (config_packager cfg)) ++ " "
  ++ spaces 17 ++ "--zone=" ++ group_zone group ++ " "
  ++ spaces 17 ++ "--min-ready 1m "
  ++ spaces 17 ++ "--max-surge 1 "
  ++ spaces 17 ++ "--max-unavailable 1".

Definition packager_commands (cfg : Config) : list string :=
  packager_upload_command cfg
  :: packager_template_command cfg
  :: map (packager_update_command cfg)
         (instance_groups (packager_instance (config_packager cfg))).

Section Discipline.
Context {shell : Shell}.

(** A computation is [orderly] when it leaves [config] as it found it,
    only adds to the trace, and calls no task function on its own. *)
Definition orderly {A} (m : M A) : Prop :=
  forall s, exists evs,
    snd (m s) = {| st_config := st_config s;
                   st_trace := (st_trace s ++ evs)%list |}
    /\ started evs = [].

(** Running tasks one after the other, each in the state the one before
    left, whether it failed or not. *)
Definition run_all (tasks : list (M unit)) (s : State) : State :=
  fold_left (fun st t => snd (t st)) tasks s.

End Discipline.

(** *** The registry's tag list

    The tag list the registry query returns, as the claim about
    [verifyTag] words it, and the text [gcloud container images
    list-tags] prints for it: a header line, then one line per image with
    its digest, its tags with commas between them, and its timestamp. *)
Record Listing := {
  listing_digest : string;
  listing_tags : list string;
  listing_timestamp : string
}.

Definition listing_line (l : Listing) : string :=
  listing_digest l ++ "  " ++ String.concat "," (listing_tags l)
  ++ "  " ++ listing_timestamp l.

Fixpoint listing_lines (ls : list Listing) : string :=
  match ls with
  | [] => EmptyString
  | l :: rest => LF ++ listing_line l ++ listing_lines rest
  end.

Definition list_tags_output (ls : list Listing) : string :=
  "DIGEST  TAGS  TIMESTAMP" ++ listing_lines ls.

(** The tags of the list. *)
Definition tags_listed (ls : list Listing) : list string :=
  flat_map listing_tags ls.

(** The registry query succeeds with the text for [ls]; so does every
    other command. *)
Definition shell_listing (ls : list Listing) : Shell :=
  {| ShError := string;
     sh_reply := fun _ _ _ => inr (list_tags_output ls) |}.

(** A registry that holds one image, tagged [v42]. *)
Definition images_v42 : list Listing :=
  [ {| listing_digest := "0a1b2c3d4e5f";
       listing_tags := ["v42"];
       listing_timestamp := "2019-10-31T09:00:00" |} ].

(** *** Sample environments and registries *)

(** The number 0, which [mri] makes of the text [0]. *)
Definition zero : JsNumber :=
  {| number_is_zero := true; number_text := "0" |}.

(** A run on 1 November 2019 at revision [abc123] with [--tag 0] on the
    commandline: [argv.tag] is the number 0. *)
Definition env_tag_zero : Env :=
  {| argv_tag := Some (One (SNumber zero));
     argv_project := Some (str "my-project");
     git_version := "abc123";
     Date_now := 1572566400000;
     ROOT := "/srv/amp.dev";
     join := fun a b => a ++ "/" ++ b |}.

Definition env_override : Env :=
  {| argv_tag := Some (str "v42");
     argv_project := Some (str "my-project");
     git_version := "abc123";
     Date_now := 1572566400000;
     ROOT := "/srv/amp.dev";
     join := fun a b => a ++ "/" ++ b |}.

Definition env_morning : Env :=
  {| argv_tag := None;
     argv_project := None;
     git_version := "abc123";
     Date_now := 1572566400000;
     ROOT := "/srv/amp.dev";
     join := fun a b => a ++ "/" ++ b |}.

Definition env_evening : Env :=
  {| argv_tag := None;
     argv_project := None;
     git_version := "abc123";
     Date_now := 1572609600000;
     ROOT := "/srv/amp.dev";
     join := fun a b => a ++ "/" ++ b |}.

(** What [gcloud container images list-tags] prints when the tag [v42]
    has been deployed. *)
Definition registry_with_v42 : string :=
  "DIGEST        TAGS  TIMESTAMP" ++ LF
  ++ "0a1b2c3d4e5f  v42   2019-10-31T09:00:00".

(** Every command succeeds; the registry lists [v42]. *)
Definition shell_v42_deployed : Shell :=
  {| ShError := string;
     sh_reply := fun _ _ _ => inr registry_with_v42 |}.

(** Every command succeeds; the registry lists no tag. *)
Definition shell_empty_registry : Shell :=
  {| ShError := string;
     sh_reply := fun _ _ _ => inr "DIGEST  TAGS  TIMESTAMP" |}.

(** *** More commands, and what a trace says

    The commands of the remaining tasks, written out as the task
    functions build them. *)
Definition upload_command (cfg : Config) : string :=
  "gcloud builds submit --tag " ++ image_current (config_image cfg) ++ " .".

Definition template_command (cfg : Config) : string :=
  "gcloud compute instance-templates create-with-container "
  ++ instance_template (config_instance cfg) ++ " "
  ++ spaces 17 ++ "--container-image "
  ++ image_current (config_image cfg) ++ " "
  ++ spaces 17 ++ "--machine-type "
  ++ instance_machine (config_instance cfg) ++ " "
  ++ spaces 17 ++ "--tags http-server,https-server "
  ++ spaces 17 ++ "--scopes default,datastore".

Definition describe_command (group : Group) : string :=
  "gcloud beta compute instance-groups managed describe "
  ++ group_name group ++ " "
  ++ spaces 13 ++ "--zone=" ++ group_zone group.

Definition setup_commands (cfg : Config) : list string :=
  [ "gcloud auth configure-docker";
    "gcloud config set compute/region " ++ gcloud_region (config_gcloud cfg);
    "gcloud config set compute/zone " ++ gcloud_zone (config_gcloud cfg) ].

(** The commands of a whole [deploy], in order. *)
Definition deploy_commands (cfg : Config) : list string :=
  list_tags_query cfg
  :: upload_command cfg
  :: template_command cfg
  :: map (start_update_command cfg) (instance_groups (config_instance cfg)).

(** What [updateStart] prints once the updates have been started. *)
Definition update_started_message : string :=
  "Rolling update started, this can take a few minutes..." ++ LF ++ LF
  ++ "Run `gulp updateStatus` to check the current status. "
  ++ "`isStable => true` once "
  ++ "when the upate has been finished.".

(** The promise [sh] returns, from the answer of the outside world. *)
Definition settled {shell : Shell} (reply : ShError + string) : Promise string :=
  match reply with
  | inl e => inl (Rejected e)
  | inr out => inr out
  end.

(** What [console.log] printed, in order. *)
Fixpoint logged (tr : list Event) : list (list Printed) :=
  match tr with
  | [] => []
  | Log args :: rest => args :: logged rest
  | _ :: rest => logged rest
  end.

(** The program a command runs is its first word: [gcloud] or [docker]. *)
Definition runs_gcloud_or_docker (cmd : string) : bool :=
  String.prefix "gcloud " cmd || String.prefix "docker " cmd.

Definition tool_event (ev : Event) : Prop :=
  match ev with
  | Sh cmd _ => runs_gcloud_or_docker cmd = true
  | _ => True
  end.

(** The event is no command, or a command run with the options [o]. *)
Definition run_with (o : option ShOpts) (ev : Event) : Prop :=
  match ev with
  | Sh _ o' => o' = o
  | _ => True
  end.

(** The event is no command, or a command run outside any working
    directory of its own. *)
Definition run_in_place (ev : Event) : Prop :=
  match ev with
  | Sh _ (Some o) => opt_workingDir o = None
  | _ => True
  end.

Section Emission.
Context {shell : Shell}.

(** Started on the configuration [cfg], the computation leaves it in
    place and adds to the trace only events that satisfy [P]. *)
Definition emits_in {A} (cfg : Config) (P : Event -> Prop) (m : M A) : Prop :=
  forall s, st_config s = cfg ->
    exists evs,
      snd (m s) = {| st_config := cfg;
                     st_trace := (st_trace s ++ evs)%list |}
      /\ Forall P evs.

End Emission.

(** A run in which the tag override is [v4]. *)
Definition env_short_tag : Env :=
  {| argv_tag := Some (str "v4");
     argv_project := Some (str "my-project");
     git_version := "abc123";
     Date_now := 1572566400000;
     ROOT := "/srv/amp.dev";
     join := fun a b => a ++ "/" ++ b |}.

(** A run in which the tag override is [TAGS]. *)
Definition env_header_tag : Env :=
  {| argv_tag := Some (str "TAGS");
     argv_project := Some (str "my-project");
     git_version := "abc123";
     Date_now := 1572566400000;
     ROOT := "/srv/amp.dev";
     join := fun a b => a ++ "/" ++ b |}.

(** A run with [--tag 12345678901234567890] on the commandline:
    [argv.tag] is the nearest number, which prints with zeros at its
    end. *)
Definition env_tag_large : Env :=
  {| argv_tag :=
       Some (One (SNumber {| number_is_zero := false;
                             number_text := "12345678901234567000" |}));
     argv_project := Some (str "my-project");
     git_version := "abc123";
     Date_now := 1572566400000;
     ROOT := "/srv/amp.dev";
     join := fun a b => a ++ "/" ++ b |}.

(** A run with [--project=] on the commandline, a flag without a value:
    [argv.project] is [true]. *)
Definition env_bare_project : Env :=
  {| argv_tag := Some (str "v42");
     argv_project := Some (One (SBool true));
     git_version := "abc123";
     Date_now := 1572566400000;
     ROOT := "/srv/amp.dev";
     join := fun a b => a ++ "/" ++ b |}.

(** Every command fails. *)
Definition shell_offline : Shell :=
  {| ShError := string;
     sh_reply := fun _ _ _ => inl "exit code 1" |}.

(** Setting the zone fails; every other command succeeds. *)
Definition shell_no_zone : Shell :=
  {| ShError := string;
     sh_reply := fun _ cmd _ =>
       if String.prefix "gcloud config set compute/zone" cmd
       then inl "exit code 1"
       else inr EmptyString |}.

(** Only the registry query succeeds; every other command fails. *)
Definition shell_read_only : Shell :=
  {| ShError := string;
     sh_reply := fun _ cmd _ =>
       if String.prefix "gcloud container images list-tags" cmd
       then inr "DIGEST  TAGS  TIMESTAMP"
       else inl "exit code 1" |}.

End Deploy.

(** ** The code-preview partial: [code-preview.j2] *)

Module CodePreview.
Import Text.

(** The preview descriptor the page generator hands to the partial.
    [mode] is any string (an absent mode prints as the empty string and
    equals none of the four mode names, like the empty string);
    [orientation] is empty when none is given; [playground] is the truth
    value of the flag. *)
Record Preview := {
  mode : string;
  source : string;
  orientation : string;
  index : Z;
  url : string;
  playground : bool
}.

(** What the partial takes from the templating environment and the page:
    the [render] and [urlencode] filters, the translation function [_]
    and [podspec.base_urls.playground]. *)
Class Page := {
  render_filter : string -> string;
  urlencode : string -> string;
  gettext : string -> string;
  playground_base_url : string
}.

(** The output, piece by piece, in template order. [Markup] is text of the
    template itself, [Expr] the value of a [{{ ... }}] (the environment
    escapes it as it is configured to), [Safe] a value marked [safe], and
    [UseIcon] the call [doc.icons.useIcon(path)] of a [do] statement,
    which prints nothing. Line breaks and indentation stand as in the
    file, that is as Jinja emits them with its default whitespace
    settings. *)
Inductive Piece :=
  | Markup (s : string)
  | Expr (s : string)
  | Safe (s : string)
  | UseIcon (path : string).

(** In the markup literals below a backquote stands for the double quote
    of the template (which has no backquote of its own). *)
Fixpoint unquote (s : string) : string :=
  match s with
  | EmptyString => EmptyString
  | String c rest =>
      String (if Ascii.eqb c "`" then ascii_of_nat 34 else c) (unquote rest)
  end.

Definition markup (s : string) : Piece := Markup (unquote s).

Definition LF : string := String (ascii_of_nat 10) EmptyString.

(** Python's [str] of an integer and of a truth value. *)
Definition of_Z (z : Z) : string := NilZero.string_of_int (Z.to_int z).

Definition str_bool (b : bool) : string := if b then "True" else "False".

(** The [lower] filter on ASCII text. *)
Definition lower_char (c : ascii) : ascii :=
  let n := nat_of_ascii c in
  if (65 <=? n)%nat && (n <=? 90)%nat then ascii_of_nat (n + 32) else c.

Fixpoint lower (s : string) : string :=
  match s with
  | EmptyString => EmptyString
  | String c rest => String (lower_char c) (lower rest)
  end.

Section Template.
Context {page : Page}.

(** The text the template emits for [preview.mode != 'none'], before
    anything else: the opening tag of the wrapping container. *)
Definition container_open (p : Preview) : list Piece :=
  [ markup "
<div class=`ap-o-code-preview ";
    Expr (if negb (mode p =? "none") then mode p else EmptyString);
    markup "`>
" ].

(** The body of [{% if preview.mode == 'inline' %}]. *)
Definition inline_block (p : Preview) : list Piece :=
  [ markup "
  <div class=`ap-o-code-preview-preview`>
     ";
    Safe (render_filter (source p));
    markup "
  </div>
  " ].

(** The body of [{% if preview.mode == 'top-frame' %}], with its two
    [set] statements. *)
Definition top_frame_block (p : Preview) : list Piece :=
  [ Markup (LF ++ spaces 2) ] ++
  let initial_orientation :=
    if truthy (orientation p) then orientation p else "landscape" in
  [ Markup (LF ++ spaces 2) ] ++
  let is_landscape :=
    if initial_orientation =? "landscape" then true else false in
  [ markup "
  <amp-state id=`orientation";
    Expr (of_Z (index p));
    markup "`>
    <script type=`application/json`>
      ";
    Expr (lower (str_bool is_landscape));
    markup "
    </script>
  </amp-state>
  <amp-state id=`example";
    Expr (of_Z (index p));
    markup "`>
    <script type=`application/json`>
      `";
    Expr (url p);
    markup "`
    </script>
  </amp-state>

  <div class=`ap-o-code-preview-top-preview ap-o-code-preview-top-preview-";
    Expr (of_Z (index p));
    markup "`>

    <div class=`ap-o-code-preview-controls`>
      <button ";
    Expr (if negb is_landscape then "hidden" else EmptyString);
    markup " [hidden]=`!orientation";
    Expr (of_Z (index p));
    markup "`
              class=`ap-o-code-preview-controls-button`
              on=`tap:
                  AMP.setState({orientation";
    Expr (of_Z (index p));
    markup ": false}),
                  iframeContainer";
    Expr (of_Z (index p));
    markup ".toggleClass(class='ap-o-code-preview-preview-iframe-landscape'),
                  iframeContainer";
    Expr (of_Z (index p));
    markup ".toggleClass(class='ap-o-code-preview-preview-iframe-portrait')`>
        <div class=`ap-a-ico ap-o-code-preview-controls-icon`>
          <svg><use xmlns:xlink=`http://www.w3.org/1999/xlink` xlink:href=`#orientation-toggle`></use></svg>
        </div>
      </button>
      <button ";
    Expr (if is_landscape then "hidden" else EmptyString);
    markup " [hidden]=`orientation";
    Expr (of_Z (index p));
    markup "`
              class=`ap-o-code-preview-controls-button`
              on=`tap:
                  AMP.setState({orientation";
    Expr (of_Z (index p));
    markup ": true}),
                  iframeContainer";
    Expr (of_Z (index p));
    markup ".toggleClass(class='ap-o-code-preview-preview-iframe-portrait'),
                  iframeContainer";
    Expr (of_Z (index p));
    markup ".toggleClass(class='ap-o-code-preview-preview-iframe-landscape')`>
        <div class=`ap-a-ico ap-o-code-preview-controls-icon`>
          <svg><use xmlns:xlink=`http://www.w3.org/1999/xlink` xlink:href=`#orientation-toggle`></use></svg>
        </div>
      </button>

      <button class=`ap-o-code-preview-controls-button`
              on=`tap:AMP.setState({'example";
    Expr (of_Z (index p));
    markup "': '";
    Expr (url p ++ "?");
    markup "' + random()})`>
        <div class=`ap-a-ico ap-o-code-preview-controls-icon`>
          <svg><use xmlns:xlink=`http://www.w3.org/1999/xlink` xlink:href=`#reload`></use></svg>
        </div>
      </button>
    </div>

    <div id=`iframeContainer";
    Expr (of_Z (index p));
    markup "` class=`ap-o-code-preview-preview-iframe ap-o-code-preview-preview-iframe-";
    Expr initial_orientation;
    markup "`>
      <amp-iframe class=`ap-o-code-preview-iframe`
                  src=`";
    Expr (url p);
    markup "`
                  [src]=`example";
    Expr (of_Z (index p));
    markup "`
                  layout=`flex-item`
                  sandbox=`allow-scripts allow-popups allow-same-origin`
                  frameborder=`0`>
        <div placeholder></div>
      </amp-iframe>
      <div class=`ap-o-code-preview-preview-iframe-background initial-";
    Expr initial_orientation;
    markup "`></div>
    </div>
  </div>
  " ].

(** One round of [{% for orientation in orientations %}]. *)
Definition orientation_button (p : Preview) (orientation : string)
  : list Piece :=
  [ Markup (LF ++ spaces 6);
    UseIcon ("/icons/orientation-" ++ orientation ++ ".svg");
    markup "
      <button class=`ap-m-orientation-toggle-button " ] ++
  (if orientation =? "portrait" then [ markup "active" ] else []) ++
  [ markup "`
              [class]=`orientation";
    Expr (of_Z (index p));
    markup " == '";
    Expr orientation;
    markup "' ? 'ap-m-orientation-toggle-button active' : 'ap-m-orientation-toggle-button'`
              on=`tap:AMP.setState({orientation";
    Expr (of_Z (index p));
    markup ": '";
    Expr orientation;
    markup "'})`>
        <svg class=`ap-a-ico ap-m-orientation-toggle-icon`>
          <use xmlns:xlink=`http://www.w3.org/1999/xlink` xlink:href=`#orientation-";
    Expr orientation;
    markup "`></use>
        </svg>
      </button>
      " ].

(** The body of [{% if preview.mode == 'side-frame' %}]. *)
Definition side_frame_block (p : Preview) : list Piece :=
  [ markup "
  <amp-state id=`orientation";
    Expr (of_Z (index p));
    markup "`>
    <script type=`application/json`>
      `portrait`
    </script>
  </amp-state>
  <amp-state id=`example";
    Expr (of_Z (index p));
    markup "`>
    <script type=`application/json`>
      `";
    Expr (url p);
    markup "`
    </script>
  </amp-state>
  " ] ++
  let base_class := "ap-o-code-preview-side-preview" in
  [ markup "
  <div class=`";
    Expr base_class;
    markup "`
       [class]=`hidePreview";
    Expr (of_Z (index p));
    markup " != 1 ? '";
    Expr base_class;
    Markup (spaces 1);
    Expr base_class;
    markup "-active' : '";
    Expr base_class;
    markup "'`>

    <button class=`ap-a-fab ap-a-fab-show`
            [class]=`hidePreview";
    Expr (of_Z (index p));
    markup " != 1 ? 'ap-a-fab ap-a-fab-hide' : 'ap-a-fab ap-a-fab-show'`
            on=`tap:AMP.setState({ hidePreview";
    Expr (of_Z (index p));
    markup ": 0 }),previewIframe";
    Expr (of_Z (index p));
    markup ".toggleClass(class='show')`
    >&#x25B6&#xFE0E;</button>
    <button class=`ap-a-fab ap-a-fab-hide`
            [class]=`hidePreview";
    Expr (of_Z (index p));
    markup " == 1 ? 'ap-a-fab ap-a-fab-hide' : 'ap-a-fab ap-a-fab-show'`
            on=`tap:AMP.setState({ hidePreview";
    Expr (of_Z (index p));
    markup ": 1 }),previewIframe";
    Expr (of_Z (index p));
    markup ".toggleClass(class='show')`
    >&#x2715&#xFE0E;</button>

    <div class=`ap-m-orientation-toggle`>
      " ] ++
  let orientations := [ "portrait"; "landscape" ] in
  [ Markup (LF ++ LF ++ spaces 6) ] ++
  flat_map (orientation_button p) orientations ++
  [ markup "
    </div>

    <button class=`ap-o-code-preview-reload` on=`tap:AMP.setState({'example";
    Expr (of_Z (index p));
    markup "': '";
    Expr (url p ++ "?");
    markup "' + random()})`>
      <div class=`ap-a-ico`>
        <svg><use xmlns:xlink=`http://www.w3.org/1999/xlink` xlink:href=`#reload`></use></svg>
      </div>
    </button>

    <div id=`previewIframe";
    Expr (of_Z (index p));
    markup "`
         class=`ap-o-code-preview-side-preview-frame ap-o-code-preview-side-preview-frame-portrait`
         [class]=`'ap-o-code-preview-side-preview-frame ap-o-code-preview-side-preview-frame-' + orientation";
    Expr (of_Z (index p));
    markup "`>
      <div class=`ap-o-code-preview-side-preview-sizer`></div>
      <amp-iframe layout=`fill`
                  sandbox=`allow-scripts allow-forms allow-same-origin allow-popups allow-popups-to-escape-sandbox allow-presentation allow-top-navigation`
                  allowfullscreen allowpaymentrequest frameborder=`0`
                  src=`";
    Expr (url p);
    markup "`
                  [src]=`example";
    Expr (of_Z (index p));
    markup "`
                  class=`i-amphtml-layout-fill i-amphtml-layout-size-defined` i-amphtml-layout=`fill`>
        <div placeholder></div>
      </amp-iframe>
    </div>
  </div>

  " ].

(** The closing tag of the wrapping container. *)
Definition container_close : list Piece :=
  [ markup "
</div>
" ].

(** The body of [{% if preview.playground %}]: the link to the
    playground. *)
Definition playground_link (p : Preview) : list Piece :=
  [ markup "
<a href=`";
    Expr playground_base_url;
    markup "/?url=";
    Expr (urlencode (url p));
    markup "%3Fformat%3D[= format =]` class=`ap-m-lnk ap--playground-link`>
  <div class=`ap-a-ico ap-m-lnk-icon`>
    <svg><use xmlns:xlink=`http://www.w3.org/1999/xlink` xlink:href=`#internal`></use></svg>
  </div>
  <span class=`ap-m-lnk-text`>";
    Expr (gettext "Open this snippet in playground");
    markup "</span>
</a>
" ].

(** The whole partial. *)
Definition render (p : Preview) (content : string) : list Piece :=
  (if negb (mode p =? "none") then container_open p else []) ++
  [ Markup (LF ++ LF ++ spaces 2) ] ++
  (if mode p =? "inline" then inline_block p else []) ++
  [ Markup (LF ++ LF ++ spaces 2) ] ++
  (if mode p =? "top-frame" then top_frame_block p else []) ++
  [ Markup (LF ++ LF);
    Safe content;
    Markup (LF ++ LF ++ spaces 2) ] ++
  (if mode p =? "side-frame" then side_frame_block p else []) ++
  [ Markup (LF ++ LF) ] ++
  (if negb (mode p =? "none") then container_close else []) ++
  [ Markup (LF ++ LF) ] ++
  (if playground p then playground_link p else []).

End Template.

(** [block] occurs in [out] as a run of consecutive pieces. *)
Definition occurs (block out : list Piece) : Prop :=
  exists before after, out = (before ++ block ++ after)%list.

(** *** Telling the blocks apart *)

(** Equality of pieces, decided. *)
Definition Piece_eqb (a b : Piece) : bool :=
  match a, b with
  | Markup x, Markup y => x =? y
  | Expr x, Expr y => x =? y
  | Safe x, Safe y => x =? y
  | UseIcon x, UseIcon y => x =? y
  | _, _ => false
  end.

(** The [k]-th piece of a block. The first piece of [container_open],
    [container_close], [inline_block] and [playground_link], the eleventh
    of [top_frame_block] (the tag that opens the top preview) and the
    tenth of [side_frame_block] (the [hidePreview] binding of the side
    preview) are markup found nowhere else in the partial. *)
Definition piece_at (k : nat) (b : list Piece) : Piece :=
  nth k b (Markup EmptyString).

(** Some markup of the output has [text] in it. *)
Definition writes (text : string) (out : list Piece) : bool :=
  existsb (fun pc => match pc with
                     | Markup s => includes text s
                     | _ => false
                     end) out.

(** The blank pieces between the blocks of the partial. *)
Definition gap : Piece := Markup (LF ++ LF ++ spaces 2).
Definition line : Piece := Markup (LF ++ LF).

(** *** A sample page and descriptor *)

Definition page_plain : Page :=
  {| render_filter := fun s => s;
     urlencode := fun s => s;
     gettext := fun s => s;
     playground_base_url := "https://playground.amp.dev" |}.

Definition preview_of (m : string) : Preview :=
  {| mode := m;
     source := "<amp-img src='a.png'></amp-img>";
     orientation := EmptyString;
     index := 3;
     url := "/documentation/examples/preview/3";
     playground := true |}.

(** *** Reading an output *)

(** The icons registered by [doc.icons.useIcon], in order. *)
Definition icons_used (out : list Piece) : list string :=
  flat_map (fun pc => match pc with UseIcon path => [path] | _ => [] end) out.

(** The values written unescaped, in order. *)
Definition safe_values (out : list Piece) : list string :=
  flat_map (fun pc => match pc with Safe v => [v] | _ => [] end) out.

(** [s] ends in [suffix]. *)
Fixpoint ends_with (suffix s : string) : bool :=
  (suffix =? s) ||
  match s with
  | EmptyString => false
  | String _ rest => ends_with suffix rest
  end.

(** The values of the expressions written right after markup that ends
    in [suffix], in order. *)
Fixpoint after_markup (suffix : string) (out : list Piece) : list string :=
  match out with
  | [] => []
  | Markup m :: (Expr v :: _) as rest =>
      if ends_with suffix m then v :: after_markup suffix rest
      else after_markup suffix rest
  | _ :: rest => after_markup suffix rest
  end.

(** The two variables the top-frame block sets. *)
Definition initial_orientation (p : Preview) : string :=
  if truthy (orientation p) then orientation p else "landscape".

Definition is_landscape (p : Preview) : bool :=
  if initial_orientation p =? "landscape" then true else false.

(** The descriptor with another orientation. *)
Definition with_orientation (o : string) (p : Preview) : Preview :=
  {| mode := mode p;
     source := source p;
     orientation := o;
     index := index p;
     url := url p;
     playground := playground p |}.

End CodePreview.

(** * Properties *)

(** ** Strings *)

Module TextFacts.
Import Text.

Lemma prefix_app (a b : string) : String.prefix a (a ++ b) = true.
Proof.
  induction a as [|c a IH]; simpl.
  - now destruct b.
  - destruct (ascii_dec c c) as [_|n]; [exact IH | now elim n].
Qed.

Lemma prefix_split (a s : string) :
  String.prefix a s = true -> exists b, s = a ++ b.
Proof.
  revert s; induction a as [|c a IH]; intros s H.
  - now exists s.
  - destruct s as [|d s]; simpl in H; [discriminate|].
    destruct (ascii_dec c d) as [->|_]; [|discriminate].
    destruct (IH s H) as [b ->]. now exists b.
Qed.

(** [includes] is containment as a run of consecutive characters. *)
Lemma includes_spec (needle hay : string) :
  includes needle hay = true <->
  exists before after, hay = before ++ needle ++ after.
Proof.
  split.
  - induction hay as [|c hay IH]; cbn [includes]; intros H.
    + rewrite orb_false_r in H. destruct (prefix_split _ _ H) as [b Hb].
      now exists EmptyString, b.
    + apply orb_true_iff in H as [H|H].
      * destruct (prefix_split _ _ H) as [b Hb]. now exists EmptyString, b.
      * destruct (IH H) as (x & y & ->). now exists (String c x), y.
  - intros (x & y & ->). induction x as [|c x IH].
    + change (EmptyString ++ needle ++ y) with (needle ++ y).
      destruct (needle ++ y) eqn:E; cbn [includes];
        rewrite <- E, prefix_app; reflexivity.
    + change (String c x ++ needle ++ y) with (String c (x ++ needle ++ y)).
      cbn [includes]. rewrite IH. apply orb_true_r.
Qed.

Lemma includes_app_l (n a b : string) :
  includes n a = true -> includes n (a ++ b) = true.
Proof.
  rewrite !includes_spec. intros (x & y & ->). exists x, (y ++ b).
  induction x; simpl; [|congruence].
  induction n; simpl; [|congruence].
  reflexivity.
Qed.

Lemma includes_app_r (n a b : string) :
  includes n b = true -> includes n (a ++ b) = true.
Proof.
  rewrite !includes_spec. intros (x & y & ->). exists (a ++ x), y.
  induction a; simpl; congruence.
Qed.

Lemma includes_refl (n : string) : includes n n = true.
Proof.
  apply includes_spec. exists EmptyString, EmptyString. simpl.
  induction n; simpl; congruence.
Qed.

(** A string of a list occurs in the list joined by a separator. *)
Lemma includes_concat (sep x : string) (l : list string) :
  In x l -> includes x (String.concat sep l) = true.
Proof.
  induction l as [|a l IH]; intros H; [destruct H|].
  destruct H as [->|H].
  - destruct l; cbn [String.concat];
      [apply includes_refl | apply includes_app_l, includes_refl].
  - destruct l as [|b l]; [destruct H|]. cbn [String.concat].
    apply includes_app_r, includes_app_r. now apply IH.
Qed.

Lemma app_nonempty_r (a b : string) : b <> EmptyString -> a ++ b <> EmptyString.
Proof. destruct a; simpl; [auto | discriminate]. Qed.

Lemma truthy_nonempty (s : string) : truthy s = true <-> s <> EmptyString.
Proof. destruct s; simpl; split; congruence. Qed.

(** A decimal numeral has no minus sign in it. *)
Lemma string_of_uint_free (d : Decimal.uint) :
  free_of "-" (NilEmpty.string_of_uint d) = true.
Proof. induction d; simpl; auto. Qed.

Lemma of_N_free (n : N) : free_of "-" (of_N n) = true.
Proof.
  unfold of_N, NilZero.string_of_uint.
  destruct (N.to_uint n) eqn:E; try apply string_of_uint_free.
  reflexivity.
Qed.

Lemma to_uint_nonnil (n : N) : N.to_uint n <> Decimal.Nil.
Proof.
  destruct n; simpl; [discriminate | apply DecimalPos.Unsigned.to_uint_nonnil].
Qed.

Lemma of_N_inj (n m : N) : of_N n = of_N m -> n = m.
Proof.
  unfold of_N. intros H. apply Unsigned.to_uint_inj.
  assert (Hn := NilZero.usu _ (to_uint_nonnil n)).
  assert (Hm := NilZero.usu _ (to_uint_nonnil m)).
  rewrite H in Hn. congruence.
Qed.

Lemma free_of_app (c : ascii) (a b : string) :
  free_of c (a ++ b) = free_of c a && free_of c b.
Proof. induction a; simpl; [reflexivity | now rewrite IHa, andb_assoc]. Qed.

(** The text after the last minus sign of a string is determined by the
    string. *)
Lemma split_last_dash (v1 v2 d1 d2 : string) :
  free_of "-" d1 = true -> free_of "-" d2 = true ->
  v1 ++ "-" ++ d1 = v2 ++ "-" ++ d2 -> v1 = v2 /\ d1 = d2.
Proof.
  intros H1 H2. revert v2.
  induction v1 as [|c v1 IH]; intros [|c2 v2] E; simpl in E.
  - injection E as E. now split.
  - injection E as Ec E. subst d1.
    rewrite free_of_app in H1. simpl in H1.
    now rewrite andb_false_r in H1.
  - injection E as Ec E. subst d2.
    rewrite free_of_app in H2. simpl in H2.
    now rewrite andb_false_r in H2.
  - injection E as Ec E. subst c2.
    destruct (IH v2 E) as [-> ->]. now split.
Qed.

End TextFacts.

(** ** The deployment tasks *)

Module DeployFacts.
Import Text TextFacts Deploy.

(** *** The tag and the image reference *)

Lemma default_tag_nonempty (v : string) (t : N) :
  v ++ "-" ++ of_N t <> EmptyString.
Proof. apply app_nonempty_r. discriminate. Qed.

Lemma TAG_default (env : Env) :
  argv_tag env = None ->
  TAG env = str (git_version env ++ "-" ++ of_N (Date_now env)).
Proof. intros E. unfold TAG. now rewrite E. Qed.

(** A truthy value of the flag is the tag, as it is. *)
Lemma TAG_truthy (env : Env) (v : Arg) :
  argv_tag env = Some v -> arg_truthy v = true -> TAG env = v.
Proof. intros E H. unfold TAG. rewrite E. simpl. now rewrite H. Qed.

(** A falsy value of the flag counts as no flag. *)
Lemma TAG_falsy (env : Env) (v : Arg) :
  argv_tag env = Some v -> arg_truthy v = false ->
  TAG env = str (git_version env ++ "-" ++ of_N (Date_now env)).
Proof. intros E H. unfold TAG. rewrite E. simpl. now rewrite H. Qed.

(** C3, as stated, fails: [--tag 0] reaches the task file as the number
    0, which is falsy, so [argv.tag || ...] takes the default tag, and the
    image reference does not end in the override. *)
Lemma image_current_tag_zero :
  argv_tag env_tag_zero = Some (One (SNumber zero)) /\
  arg_text (One (SNumber zero)) = "0" /\
  arg_text (PROJECT_ID env_tag_zero) = "my-project" /\
  image_current (config_image (config env_tag_zero))
    = "gcr.io/my-project/amp-dev:abc123-1572566400000" /\
  image_current (config_image (config env_tag_zero))
    <> "gcr.io/" ++ "my-project" ++ "/" ++ "amp-dev" ++ ":" ++ "0".
Proof. repeat split. vm_compute. discriminate. Qed.

(** C3, amended: for every project id [P] the module computes and every
    value [T] of [argv.tag], [config.image.current] is [gcr.io/P/amp-dev:]
    followed by [T] as a template literal prints it ([T] itself when it is
    a string) when [T] is truthy, and followed by the default tag when
    [T] is falsy (the number 0, [false], the empty string). *)
Theorem image_current_of_override (env : Env) (P : string) (T : Arg) :
  arg_text (PROJECT_ID env) = P ->
  argv_tag env = Some T ->
  (arg_truthy T = true ->
   image_current (config_image (config env))
     = "gcr.io/" ++ P ++ "/" ++ "amp-dev" ++ ":" ++ arg_text T)
  /\ (arg_truthy T = false ->
      image_current (config_image (config env))
        = "gcr.io/" ++ P ++ "/" ++ "amp-dev" ++ ":"
          ++ git_version env ++ "-" ++ of_N (Date_now env))
  /\ (forall s, T = str s -> s <> EmptyString ->
      image_current (config_image (config env))
        = "gcr.io/" ++ P ++ "/" ++ "amp-dev" ++ ":" ++ s).
Proof.
  intros HP HT. cbn [config config_image image_current]. rewrite HP.
  split; [|split].
  - intros H. now rewrite (TAG_truthy env T HT H).
  - intros H. now rewrite (TAG_falsy env T HT H).
  - intros s -> Hs. rewrite (TAG_truthy env (str s) HT); [reflexivity|].
    now apply truthy_nonempty.
Qed.

Lemma image_current_of_override_witness :
  image_current (config_image (config env_override))
    = "gcr.io/my-project/amp-dev:v42"
  /\ image_current (config_image (config env_tag_large))
     = "gcr.io/my-project/amp-dev:12345678901234567000"
  /\ image_current (config_image (config env_tag_zero))
     = "gcr.io/my-project/amp-dev:abc123-1572566400000".
Proof.
  split; [|split].
  - destruct (image_current_of_override env_override "my-project" (str "v42")
                eq_refl eq_refl) as (H & _).
    exact (H eq_refl).
  - destruct (image_current_of_override env_tag_large "my-project" _
                eq_refl eq_refl) as (H & _).
    exact (H eq_refl).
  - destruct (image_current_of_override env_tag_zero "my-project"
                (One (SNumber zero)) eq_refl eq_refl) as (_ & H & _).
    exact (H eq_refl).
Defined.

(** C6: with no tag override the tag is not empty, and two runs whose
    [Date.now()] values differ compute different tags (whatever the
    revisions they run at). *)
Theorem default_tag_nonempty_and_fresh (env1 env2 : Env) :
  argv_tag env1 = None ->
  argv_tag env2 = None ->
  arg_text (TAG env1) <> EmptyString /\
  (Date_now env1 <> Date_now env2 ->
   arg_text (TAG env1) <> arg_text (TAG env2)).
Proof.
  intros E1 E2. rewrite (TAG_default _ E1), (TAG_default _ E2).
  cbn [arg_text str scalar_text].
  split; [apply default_tag_nonempty|].
  intros Hts Htag.
  apply split_last_dash in Htag; try apply of_N_free.
  destruct Htag as [_ Hd]. now apply of_N_inj in Hd.
Qed.

Lemma default_tag_nonempty_and_fresh_witness :
  arg_text (TAG env_morning) <> EmptyString
  /\ arg_text (TAG env_morning) <> arg_text (TAG env_evening).
Proof.
  destruct (default_tag_nonempty_and_fresh env_morning env_evening
              eq_refl eq_refl) as [H1 H2].
  split; [exact H1 | apply H2; discriminate].
Defined.

(** *** Traces *)

Lemma started_app (a b : list Event) :
  started (a ++ b)%list = (started a ++ started b)%list.
Proof.
  induction a as [|[name|cmd o|args] a IH]; simpl; auto. now rewrite IH.
Qed.

Lemma commands_app (a b : list Event) :
  commands (a ++ b)%list = (commands a ++ commands b)%list.
Proof.
  induction a as [|[name|cmd o|args] a IH]; simpl; auto. now rewrite IH.
Qed.

Lemma added_app {A} (old evs : list A) : added old (old ++ evs)%list = evs.
Proof. unfold added. induction old; simpl; auto. Qed.

Lemma started_sh (A : Type) (cmd : A -> string) (o : option ShOpts)
      (l : list A) :
  started (map (fun x => Sh (cmd x) o) l) = [].
Proof. induction l; simpl; auto. Qed.

Lemma commands_sh (A : Type) (cmd : A -> string) (o : option ShOpts)
      (l : list A) :
  commands (map (fun x => Sh (cmd x) o) l) = map cmd l.
Proof. induction l; simpl; congruence. Qed.

(** *** What every task function respects *)

Section Effects.
Context {shell : Shell}.

Lemma orderly_here {A} (m : M A) :
  (forall s, snd (m s) = s) -> orderly m.
Proof.
  intros H s. exists []. rewrite H, app_nil_r. now destruct s.
Qed.

Lemma orderly_emit {A} (m : M A) (e : Event) :
  started [e] = [] -> (forall s, snd (m s) = emit e s) -> orderly m.
Proof. intros He H s. exists [e]. now rewrite H. Qed.

Lemma orderly_ret {A} (a : A) : orderly (ret a).
Proof. now apply orderly_here. Qed.

Lemma orderly_throw {A} (msg : string) : orderly (@throw _ A msg).
Proof. now apply orderly_here. Qed.

Lemma orderly_read_config : orderly read_config.
Proof. now apply orderly_here. Qed.

Lemma orderly_await {A} (p : Promise A) : orderly (await p).
Proof. now apply orderly_here. Qed.

Lemma orderly_console_log (args : list Printed) :
  orderly (console_log args).
Proof. now apply orderly_emit with (e := Log args). Qed.

Lemma orderly_sh (cmd : string) (o : option ShOpts) : orderly (sh cmd o).
Proof. now apply orderly_emit with (e := Sh cmd o). Qed.

Lemma orderly_bind {A B} (m : M A) (k : A -> M B) :
  orderly m -> (forall a, orderly (k a)) -> orderly (bind m k).
Proof.
  intros Hm Hk s. unfold bind.
  destruct (Hm s) as (e1 & E1 & S1).
  destruct (m s) as [[err|a] s1]; simpl in E1; subst s1.
  - now exists e1.
  - destruct (Hk a {| st_config := st_config s;
                      st_trace := (st_trace s ++ e1)%list |})
      as (e2 & E2 & S2).
    exists (e1 ++ e2)%list. rewrite E2. simpl.
    now rewrite app_assoc, started_app, S1, S2.
Qed.

Lemma orderly_void {A} (m : M A) : orderly m -> orderly (void m).
Proof. intros H. apply orderly_bind; [exact H | intros; apply orderly_ret]. Qed.

Lemma orderly_map_calls {A B} (f : A -> M B) (l : list A) :
  (forall x, orderly (f x)) -> orderly (calls (map_calls f l)).
Proof.
  intros Hf. unfold calls.
  induction l as [|x l IH]; intros s.
  - exists []. simpl. rewrite app_nil_r. now destruct s.
  - cbn [map_calls]. destruct (Hf x s) as (e1 & E1 & S1).
    destruct (f x s) as [p s1]. simpl in E1. subst s1.
    destruct (IH {| st_config := st_config s;
                    st_trace := (st_trace s ++ e1)%list |})
      as (e2 & E2 & S2).
    destruct (map_calls f l _) as [ps s2]. simpl in E2 |- *. subst s2.
    exists (e1 ++ e2)%list. simpl.
    now rewrite app_assoc, started_app, S1, S2.
Qed.

End Effects.

Create HintDb orderly.

#[local] Hint Resolve orderly_ret orderly_throw orderly_read_config orderly_await
  orderly_console_log orderly_sh orderly_void : orderly.

Ltac orderly_tac :=
  repeat first
    [ apply orderly_bind; [|intros]
    | apply orderly_map_calls; intros
    | match goal with |- orderly (if ?b then _ else _) => destruct b end
    | solve [auto with orderly] ].

Section TaskFacts.
Context {shell : Shell}.

Lemma orderly_verifyTag : orderly verifyTag.
Proof. unfold verifyTag. orderly_tac. Qed.

Lemma orderly_gcloudSetup : orderly gcloudSetup.
Proof. unfold gcloudSetup. orderly_tac. Qed.

Lemma orderly_imageBuild : orderly imageBuild.
Proof. unfold imageBuild. orderly_tac. Qed.

Lemma orderly_imageRunLocal : orderly imageRunLocal.
Proof. unfold imageRunLocal. orderly_tac. Qed.

Lemma orderly_imageUpload : orderly imageUpload.
Proof. unfold imageUpload. orderly_tac. Qed.

Lemma orderly_imageList : orderly imageList.
Proof. unfold imageList. orderly_tac. Qed.

Lemma orderly_instanceTemplateCreate : orderly instanceTemplateCreate.
Proof. unfold instanceTemplateCreate. orderly_tac. Qed.

Lemma orderly_updateStart : orderly updateStart.
Proof. unfold updateStart. orderly_tac. Qed.

Lemma orderly_updateStatus : orderly updateStatus.
Proof. unfold updateStatus. orderly_tac. Qed.

Lemma orderly_updateStop : orderly updateStop.
Proof. unfold updateStop. orderly_tac. Qed.

Lemma orderly_packagerInstanceTemplateCreate :
  orderly packagerInstanceTemplateCreate.
Proof. unfold packagerInstanceTemplateCreate. orderly_tac. Qed.

Lemma orderly_packagerImageUpload : orderly packagerImageUpload.
Proof. unfold packagerImageUpload. orderly_tac. Qed.

Lemma orderly_packagerUpdateStart : orderly packagerUpdateStart.
Proof. unfold packagerUpdateStart. orderly_tac. Qed.

(** *** [series] *)

Lemma series_cons (t : Task) (ts : list Task) (s : State) :
  series (t :: ts) s =
  match task_body t (emit (Started (task_name t)) s) with
  | (inl e, s1) => (inl e, s1)
  | (inr _, s1) => series ts s1
  end.
Proof. reflexivity. Qed.

Lemma series_trace (ts : list Task) :
  Forall (fun t => orderly (task_body t)) ts ->
  forall s, exists evs n,
    snd (series ts s) = {| st_config := st_config s;
                           st_trace := (st_trace s ++ evs)%list |}
    /\ started evs = firstn n (map task_name ts)
    /\ (ts <> [] -> (1 <= n)%nat)
    /\ (fst (series ts s) = inr tt -> started evs = map task_name ts).
Proof.
  induction 1 as [|t ts Ht _ IH]; intros s.
  - exists [], 0%nat. simpl. rewrite app_nil_r. destruct s. now auto.
  - rewrite series_cons.
    destruct (Ht (emit (Started (task_name t)) s)) as (e1 & E1 & S1).
    destruct (task_body t _) as [[err|[]] s1]; simpl in E1; subst s1.
    + exists (Started (task_name t) :: e1), 1%nat. simpl.
      rewrite <- app_assoc, S1. repeat split; auto. discriminate.
    + match goal with |- context [series ts ?s1] =>
        destruct (IH s1) as (e2 & n & E2 & S2 & _ & F2) end.
      exists (Started (task_name t) :: e1 ++ e2)%list, (S n).
      rewrite E2. cbn [fst snd st_config st_trace emit].
      assert (St : started (Started (task_name t) :: e1 ++ e2)%list
                   = task_name t :: started e2)
        by (simpl; now rewrite started_app, S1).
      rewrite St. split; [|split; [|split]].
      * f_equal. now rewrite <- !app_assoc.
      * simpl. now rewrite S2.
      * auto with arith.
      * intros Hok. simpl. now rewrite (F2 Hok).
Qed.

(** A failing first step ends the series on the spot. *)
Lemma series_first_fails (t : Task) (ts : list Task) (s : State) (e : Error) :
  fst (task_body t (emit (Started (task_name t)) s)) = inl e ->
  series (t :: ts) s = (inl e, snd (task_body t (emit (Started (task_name t)) s))).
Proof.
  intros H. rewrite series_cons.
  destruct (task_body t _) as [[err|[]] s1]; simpl in H |- *; congruence.
Qed.

Lemma void_fails {A} (m : M A) (s : State) (e : Error) :
  fst (m s) = inl e -> void m s = (inl e, snd (m s)).
Proof.
  unfold void, bind. destruct (m s) as [[err|a] s1]; simpl; congruence.
Qed.

(** *** [verifyTag] *)

Lemma verifyTag_run (s : State) :
  verifyTag s =
  match sh_reply (st_trace s) (list_tags_query (st_config s)) quiet with
  | inl e => (inl (Rejected e), emit (Sh (list_tags_query (st_config s)) quiet) s)
  | inr tags =>
      (if includes (arg_text (config_tag (st_config s))) tags
       then inl (Thrown (collision_message (st_config s)))
       else inr tt,
       emit (Log [Words "Verifying build tag"; Value (config_tag (st_config s))])
            (emit (Sh (list_tags_query (st_config s)) quiet) s))
  end.
Proof.
  unfold verifyTag, bind, read_config, sh, console_log, throw, ret.
  cbn [fst snd emit st_config st_trace].
  fold (list_tags_query (st_config s)). fold quiet.
  destruct (sh_reply _ _ _) as [e|tags]; [reflexivity|].
  unfold collision_message.
  destruct (includes _ tags); reflexivity.
Qed.

(** A failed registry query is passed on as it is. *)
Lemma verifyTag_query_fails (s : State) (e : ShError) :
  sh_reply (st_trace s) (list_tags_query (st_config s)) quiet = inl e ->
  fst (verifyTag s) = inl (Rejected e).
Proof. intros H. now rewrite verifyTag_run, H. Qed.

(** A listed tag stands in the text printed for the list. *)
Lemma listed_tag_in_output (tag : string) (ls : list Listing) :
  In tag (tags_listed ls) -> includes tag (list_tags_output ls) = true.
Proof.
  intros H. unfold list_tags_output. apply includes_app_r.
  induction ls as [|l ls IH]; [destruct H|].
  cbn [tags_listed flat_map] in H. apply in_app_or in H.
  cbn [listing_lines]. apply includes_app_r.
  destruct H as [H|H].
  - apply includes_app_l. unfold listing_line.
    apply includes_app_r, includes_app_r, includes_app_l.
    now apply includes_concat.
  - apply includes_app_r. now apply IH.
Qed.



(** *** [deploy] *)

Lemma deploy_steps_orderly :
  Forall (fun t => orderly (task_body t)) deploy_steps.
Proof.
  repeat constructor; cbn [task task_body]; apply orderly_void.
  - apply orderly_verifyTag.
  - apply orderly_imageUpload.
  - apply orderly_instanceTemplateCreate.
  - apply orderly_updateStart.
Qed.

(** *** [updateStart] *)

Lemma map_calls_sh {A} (cmd : A -> string) (o : option ShOpts)
      (l : list A) (s : State) :
  snd (map_calls (fun x => sh (cmd x) o) l s)
  = {| st_config := st_config s;
       st_trace := (st_trace s ++ map (fun x => Sh (cmd x) o) l)%list |}.
Proof.
  revert s. induction l as [|x l IH]; intros s; cbn [map_calls map].
  - rewrite app_nil_r. now destruct s.
  - unfold sh at 1. specialize (IH (emit (Sh (cmd x) o) s)).
    destruct (map_calls _ l _) as [ps s2]. cbn [snd] in IH |- *.
    rewrite IH. cbn [emit st_config st_trace].
    now rewrite <- app_assoc.
Qed.

Lemma updateStart_trace (s : State) :
  exists logs,
    st_trace (snd (updateStart s))
    = (st_trace s
       ++ map (fun g => Sh (start_update_command (st_config s) g) None)
              (instance_groups (config_instance (st_config s)))
       ++ logs)%list
    /\ commands logs = [].
Proof.
  unfold updateStart, bind, read_config, calls, await, console_log.
  cbn [fst snd].
  pose proof (map_calls_sh (start_update_command (st_config s)) None
                (instance_groups (config_instance (st_config s))) s) as E.
  unfold start_update_command in E |- *.
  destruct (map_calls _ _ s) as [ps s1]. cbn [snd] in E. subst s1.
  destruct (Promise_all ps) as [e|outs]; cbn [snd emit st_trace].
  - exists []. now rewrite app_nil_r.
  - eexists [_]. rewrite <- app_assoc. split; reflexivity.
Qed.

(** C4: whatever the list [config.instance.groups], one run of
    [updateStart] spawns one rolling-update command for each entry of the
    list, in list order and no other command, and the command for a group
    names that group after [start-update] and gives that group's zone as
    [--zone]. *)
Theorem updateStart_one_update_per_group (s : State) :
  let groups := instance_groups (config_instance (st_config s)) in
  let template := instance_template (config_instance (st_config s)) in
  let tr := added (st_trace s) (st_trace (snd (updateStart s))) in
  commands tr
  = map (fun group =>
           "gcloud beta compute instance-groups managed rolling-action "
           ++ spaces 17 ++ "start-update " ++ group_name group ++ " "
           ++ spaces 17 ++ "--version template=" ++ template ++ " "
           ++ spaces 17 ++ "--zone=" ++ group_zone group ++ " "
           ++ spaces 17 ++ "--min-ready 4m "
           ++ spaces 17 ++ "--max-surge 1 "
           ++ spaces 17 ++ "--max-unavailable 1")
        groups
  /\ List.length (commands tr) = List.length groups.
Proof.
  intros groups template tr.
  destruct (updateStart_trace s) as (logs & E & L).
  assert (C : commands tr = map (start_update_command (st_config s)) groups).
  { subst tr. rewrite E, added_app, commands_app, L, app_nil_r.
    apply commands_sh. }
  split; [exact C|]. rewrite C. apply length_map.
Qed.

(** On the configuration of the source the two commands are those for
    the groups in Europe and in zone 2, each with its own zone. *)
Example updateStart_on_configured_groups :
  commands (st_trace (snd (@updateStart shell_empty_registry
                             (initial env_override))))
  = [ "gcloud beta compute instance-groups managed rolling-action "
      ++ spaces 17 ++ "start-update ig-amp-dev-europe "
      ++ spaces 17 ++ "--version template=it-amp-dev-v42 "
      ++ spaces 17 ++ "--zone=europe-west2-c "
      ++ spaces 17 ++ "--min-ready 4m "
      ++ spaces 17 ++ "--max-surge 1 "
      ++ spaces 17 ++ "--max-unavailable 1";
      "gcloud beta compute instance-groups managed rolling-action "
      ++ spaces 17 ++ "start-update ig-amp-dev-zone2 "
      ++ spaces 17 ++ "--version template=it-amp-dev-v42 "
      ++ spaces 17 ++ "--zone=us-east1-b "
      ++ spaces 17 ++ "--min-ready 4m "
      ++ spaces 17 ++ "--max-surge 1 "
      ++ spaces 17 ++ "--max-unavailable 1" ].
Proof. reflexivity. Qed.

(** *** [updateStop] *)

(** [config.instance] has no property [group], whatever its contents. *)
Lemma instance_get_group (i : Instance) : instance_get i "group" = JUndefined.
Proof. reflexivity. Qed.

(** C7: on the configuration the task file builds, reading
    [config.instance.group] gives [undefined]; the command [updateStop]
    spawns therefore ends in the word [undefined], and the name of no
    configured instance group occurs in it. *)
Theorem updateStop_names_no_group (env : Env) (tr : list Event) :
  let s := {| st_config := config env; st_trace := tr |} in
  let command :=
    "gcloud compute instance-groups managed rolling-action "
    ++ spaces 4 ++ "stop-proactive-update undefined" in
  instance_get (config_instance (config env)) "group" = JUndefined
  /\ added tr (st_trace (snd (updateStop s))) = [Sh command None]
  /\ Forall (fun group => includes (group_name group) command = false)
            (instance_groups (config_instance (config env))).
Proof.
  intros s command. split; [reflexivity|]. split.
  - unfold updateStop, bind, read_config, sh. cbn [fst snd emit st_trace].
    now rewrite added_app.
  - repeat constructor.
Qed.

(** *** [packagerDeploy] *)

Lemma Forall_firstn {A} (P : A -> Prop) (n : nat) (l : list A) :
  Forall P l -> Forall P (firstn n l).
Proof.
  intros H. revert n. induction H; intros [|n]; simpl; auto.
Qed.

Lemma packagerUpdateStart_trace (s : State) :
  exists logs,
    st_trace (snd (packagerUpdateStart s))
    = (st_trace s
       ++ map (fun g => Sh (packager_update_command (st_config s) g)
                           (Some (packager_opts (config_packager (st_config s)))))
              (instance_groups (packager_instance (config_packager (st_config s))))
       ++ logs)%list
    /\ commands logs = [].
Proof.
  unfold packagerUpdateStart, bind, read_config, calls, await, console_log.
  cbn [fst snd].
  pose proof (map_calls_sh (packager_update_command (st_config s))
                (Some (packager_opts (config_packager (st_config s))))
                (instance_groups (packager_instance (config_packager (st_config s))))
                s) as E.
  unfold packager_update_command in E |- *.
  destruct (map_calls _ _ s) as [ps s1]. cbn [snd] in E. subst s1.
  destruct (Promise_all ps) as [e|outs]; cbn [snd emit st_trace].
  - exists []. now rewrite app_nil_r.
  - eexists [_]. rewrite <- app_assoc. split; reflexivity.
Qed.

Lemma void_run {A} (m : M A) (s : State) :
  void m s
  = (match fst (m s) with inl e => inl e | inr _ => inr tt end, snd (m s)).
Proof. unfold void, bind, ret. now destruct (m s) as [[e|a] s1]. Qed.

Lemma packagerImageUpload_run (s : State) :
  packagerImageUpload s
  = (match sh_reply (st_trace s) (packager_upload_command (st_config s))
                    (Some (packager_opts (config_packager (st_config s)))) with
     | inl e => inl (Rejected e)
     | inr out => inr out
     end,
     emit (Sh (packager_upload_command (st_config s))
              (Some (packager_opts (config_packager (st_config s))))) s).
Proof. reflexivity. Qed.

Lemma packagerInstanceTemplateCreate_run (s : State) :
  packagerInstanceTemplateCreate s
  = (match sh_reply (st_trace s) (packager_template_command (st_config s))
                    (Some (packager_opts (config_packager (st_config s)))) with
     | inl e => inl (Rejected e)
     | inr out => inr out
     end,
     emit (Sh (packager_template_command (st_config s))
              (Some (packager_opts (config_packager (st_config s))))) s).
Proof. reflexivity. Qed.

Lemma packagerDeploy_commands (s : State) :
  let tr := added (st_trace s) (st_trace (snd (packagerDeploy s))) in
  (exists n, commands tr = firstn n (packager_commands (st_config s)))
  /\ (fst (packagerDeploy s) = inr tt ->
      commands tr = packager_commands (st_config s)).
Proof.
  unfold packagerDeploy, packagerDeploy_steps.
  rewrite series_cons. cbn [task task_name task_body].
  rewrite void_run, packagerImageUpload_run. cbn [fst snd].
  destruct (sh_reply _ _ _) as [e1|out1].
  { cbn [fst snd emit st_trace st_config].
    rewrite <- !app_assoc, added_app.
    split; [now exists 1%nat | discriminate]. }
  rewrite series_cons. cbn [task task_name task_body].
  rewrite void_run, packagerInstanceTemplateCreate_run. cbn [fst snd].
  destruct (sh_reply _ _ _) as [e2|out2].
  { cbn [fst snd emit st_trace st_config].
    rewrite <- !app_assoc, added_app.
    split; [now exists 2%nat | discriminate]. }
  rewrite series_cons. cbn [task task_name task_body].
  rewrite void_run.
  match goal with |- context [packagerUpdateStart ?s3] =>
    destruct (packagerUpdateStart_trace s3) as (logs & E & L);
    destruct (packagerUpdateStart s3) as [r s4] end.
  cbn [snd fst emit st_trace st_config] in E.
  assert (C : commands (added (st_trace s) (st_trace s4))
              = packager_commands (st_config s)).
  { rewrite E, <- !app_assoc, added_app. cbn [app commands].
    rewrite !commands_app, L, app_nil_r. cbn [app commands].
    now rewrite commands_sh. }
  destruct r as [e3|[]]; cbn [fst snd series ret]; rewrite C.
  - split; [|discriminate].
    exists (List.length (packager_commands (st_config s))).
    now rewrite firstn_all.
  - split; [|reflexivity].
    exists (List.length (packager_commands (st_config s))).
    now rewrite firstn_all.
Qed.

Lemma packagerDeploy_steps_orderly :
  Forall (fun t => orderly (task_body t)) packagerDeploy_steps.
Proof.
  repeat constructor; cbn [task task_body]; apply orderly_void.
  - apply orderly_packagerImageUpload.
  - apply orderly_packagerInstanceTemplateCreate.
  - apply orderly_packagerUpdateStart.
Qed.

(** C8, amended: [packagerDeploy] calls the packager's upload,
    template-create and update-start functions, in this order and
    nothing else; a run that succeeds has called all three and has
    spawned the upload command, the template command and one update
    command per packager group, all on [config.packager]; and no run of
    it queries the registry for the tags, since it has no verify step. *)
Theorem packagerDeploy_runs_three_steps (s : State) :
  let names :=
    ["packagerImageUpload"; "packagerInstanceTemplateCreate";
     "packagerUpdateStart"] in
  let tr := added (st_trace s) (st_trace (snd (packagerDeploy s))) in
  (exists n, (1 <= n)%nat /\ started tr = firstn n names)
  /\ (fst (packagerDeploy s) = inr tt ->
      started tr = names
      /\ commands tr = packager_commands (st_config s))
  /\ Forall (fun cmd =>
               String.prefix "gcloud container images list-tags" cmd = false)
            (commands tr).
Proof.
  intros names tr.
  destruct (series_trace packagerDeploy_steps packagerDeploy_steps_orderly s)
    as (evs & n & E & S & N & F).
  destruct (packagerDeploy_commands s) as [[k Ck] Cok].
  fold tr in Ck, Cok.
  assert (T : started tr = started evs).
  { subst tr. unfold packagerDeploy. rewrite E. cbn [st_trace].
    now rewrite added_app. }
  split; [|split].
  - exists n. split; [apply N; discriminate | now rewrite T].
  - intros Hok. split; [rewrite T; exact (F Hok) | exact (Cok Hok)].
  - rewrite Ck. apply Forall_firstn.
    unfold packager_commands. constructor; [reflexivity|].
    constructor; [reflexivity|].
    apply Forall_forall. intros cmd Hin. apply in_map_iff in Hin.
    destruct Hin as (g & <- & _). reflexivity.
Qed.

(** *** [deploy], step by step *)

(** C2: [deploy] is [verifyTag], then [imageUpload], then
    [instanceTemplateCreate], then [updateStart], each called once the
    one before it has resolved, in the state that one left, and nothing
    else: a step that fails ends [deploy] with its error and in its
    state, and [deploy] ends as [updateStart] does when all four run.
    So the task functions called at the end of a run are the first few
    of these four, at least the first, and all four when the run
    succeeds; and when [verifyTag] raises, [deploy] ends with that error,
    [verifyTag] is the only function called and its registry query the
    only command spawned. *)
Theorem deploy_runs_steps_in_order (s : State) :
  let names :=
    ["verifyTag"; "imageUpload"; "instanceTemplateCreate"; "updateStart"] in
  let tr := added (st_trace s) (st_trace (snd (deploy s))) in
  let r1 := verifyTag (emit (Started "verifyTag") s) in
  let r2 := imageUpload (emit (Started "imageUpload") (snd r1)) in
  let r3 := instanceTemplateCreate
              (emit (Started "instanceTemplateCreate") (snd r2)) in
  let r4 := updateStart (emit (Started "updateStart") (snd r3)) in
  deploy s
  = match fst r1 with
    | inl e => (inl e, snd r1)
    | inr _ =>
        match fst r2 with
        | inl e => (inl e, snd r2)
        | inr _ =>
            match fst r3 with
            | inl e => (inl e, snd r3)
            | inr _ => r4
            end
        end
    end
  /\ (exists n, (1 <= n)%nat /\ started tr = firstn n names)
  /\ (fst (deploy s) = inr tt -> started tr = names)
  /\ (forall e,
        fst (verifyTag (emit (Started "verifyTag") s)) = inl e ->
        fst (deploy s) = inl e
        /\ started tr = ["verifyTag"]
        /\ commands tr = [list_tags_query (st_config s)]).
Proof.
  intros names tr r1 r2 r3 r4. split; [|split; [|split]].
  - subst r1 r2 r3 r4. unfold deploy, deploy_steps.
    rewrite series_cons. cbn [task task_name task_body]. rewrite void_run.
    destruct (verifyTag _) as [[e1|[]] s1]; cbn [fst snd]; [reflexivity|].
    rewrite series_cons. cbn [task task_name task_body]. rewrite void_run.
    destruct (imageUpload _) as [[e2|o2] s2]; cbn [fst snd]; [reflexivity|].
    rewrite series_cons. cbn [task task_name task_body]. rewrite void_run.
    destruct (instanceTemplateCreate _) as [[e3|o3] s3]; cbn [fst snd];
      [reflexivity|].
    rewrite series_cons. cbn [task task_name task_body]. rewrite void_run.
    destruct (updateStart _) as [[e4|[]] s4]; reflexivity.
  - destruct (series_trace deploy_steps deploy_steps_orderly s)
      as (evs & n & E & S & N & _).
    exists n. split; [apply N; discriminate|].
    subst tr. unfold deploy. rewrite E. cbn [st_trace].
    now rewrite added_app.
  - intros Hok.
    destruct (series_trace deploy_steps deploy_steps_orderly s)
      as (evs & n & E & _ & _ & F).
    subst tr. unfold deploy. rewrite E. cbn [st_trace].
    rewrite added_app. exact (F Hok).
  - intros e He. subst tr. unfold deploy, deploy_steps.
    rewrite (series_first_fails (task "verifyTag" verifyTag) _ s e);
      cbn [task task_name task_body];
      [|now rewrite (void_fails _ _ e He)].
    rewrite (void_fails _ _ e He). cbn [fst snd].
    split; [reflexivity|].
    rewrite verifyTag_run.
    destruct (sh_reply _ _ _); cbn [snd emit st_trace st_config];
      rewrite <- !app_assoc, added_app; split; reflexivity.
Qed.

(** *** The configuration stays as it was built *)

Lemma orderly_config {A} (m : M A) :
  orderly m -> forall s, st_config (snd (m s)) = st_config s.
Proof. intros H s. destruct (H s) as (evs & E & _). now rewrite E. Qed.

Lemma series_config (ts : list Task) :
  Forall (fun t => orderly (task_body t)) ts ->
  forall s, st_config (snd (series ts s)) = st_config s.
Proof.
  intros H s. destruct (series_trace ts H s) as (evs & n & E & _).
  now rewrite E.
Qed.

Lemma append_assoc (a b c : string) : (a ++ b) ++ c = a ++ b ++ c.
Proof. induction a; simpl; congruence. Qed.

Lemma exports_orderly :
  Forall (fun export => forall s, st_config (snd (snd export s)) = st_config s)
         exports.
Proof.
  unfold exports.
  repeat (apply Forall_cons; [cbn [snd]|]); try apply Forall_nil;
    try (apply orderly_config, orderly_void).
  - apply orderly_verifyTag.
  - apply orderly_gcloudSetup.
  - apply series_config, deploy_steps_orderly.
  - apply orderly_imageBuild.
  - apply orderly_imageList.
  - apply orderly_imageRunLocal.
  - apply orderly_imageUpload.
  - apply orderly_instanceTemplateCreate.
  - apply series_config, packagerDeploy_steps_orderly.
  - apply orderly_packagerImageUpload.
  - apply orderly_packagerInstanceTemplateCreate.
  - apply orderly_packagerUpdateStart.
  - apply orderly_updateStop.
  - apply orderly_updateStatus.
  - apply orderly_updateStart.
Qed.

(** C9: [config] is a function of what the module reads when it is
    loaded; every exported task leaves it as it is, so after any number
    of exported tasks, run in any order from the start of the process,
    it is still the object built at the start; and in that object the
    image reference and the template name, and those of the packager,
    all carry the one tag [config.tag]. *)
Theorem exported_tasks_leave_config (env : Env) :
  Forall (fun export => forall s, st_config (snd (snd export s)) = st_config s)
         exports
  /\ (forall runs : list (M unit),
        Forall (fun t => In t (map snd exports)) runs ->
        st_config (run_all runs (initial env)) = config env)
  /\ (let c := config env in
      let p := config_packager c in
      image_current (config_image c)
        = image_name (config_image c) ++ ":" ++ arg_text (config_tag c)
      /\ instance_template (config_instance c)
           = "it-" ++ config_prefix c ++ "-" ++ arg_text (config_tag c)
      /\ packager_tag p = config_tag c
      /\ image_current (packager_image p)
           = image_name (packager_image p) ++ ":" ++ arg_text (config_tag c)
      /\ instance_template (packager_instance p)
           = "it-" ++ packager_prefix p ++ "-" ++ arg_text (config_tag c)).
Proof.
  split; [exact exports_orderly|]. split.
  - intros runs Hruns.
    assert (G : forall s, st_config (run_all runs s) = st_config s).
    { induction Hruns as [|t runs Ht _ IH]; intros s; [reflexivity|].
      cbn [run_all fold_left]. fold (run_all runs (snd (t s))).
      rewrite IH. apply in_map_iff in Ht. destruct Ht as (ex & <- & Hex).
      pose proof exports_orderly as F.
      rewrite Forall_forall in F. exact (F ex Hex s). }
    apply G.
  - cbn. rewrite !append_assoc. cbn. repeat split.
Qed.

End TaskFacts.

(** *** Sample runs *)


Lemma deploy_runs_steps_in_order_witness :
  started (st_trace (snd (@deploy shell_empty_registry (initial env_override))))
  = ["verifyTag"; "imageUpload"; "instanceTemplateCreate"; "updateStart"]
  /\ started (st_trace (snd (@deploy shell_v42_deployed (initial env_override))))
     = ["verifyTag"].
Proof.
  split.
  - destruct (@deploy_runs_steps_in_order shell_empty_registry
                (initial env_override)) as (_ & _ & H & _).
    exact (H eq_refl).
  - destruct (@deploy_runs_steps_in_order shell_v42_deployed
                (initial env_override)) as (_ & _ & _ & H).
    destruct (H _ eq_refl) as (_ & H2 & _). exact H2.
Defined.

(** C8, as stated, fails: where the registry already lists the tag, the
    [deploy] composite applied to the packager's configuration stops at
    its verify step with the collision error, while [packagerDeploy]
    verifies nothing, calls its three functions and succeeds. *)
Lemma packagerDeploy_skips_verification :
  fst (@packagerDeploy_as_specified shell_v42_deployed (initial env_override))
  = inl (Thrown
           "The commit v42 you are trying to build has already been deployed!")
  /\ started (st_trace (snd (@packagerDeploy_as_specified shell_v42_deployed
                               (initial env_override))))
     = ["verifyTag"]
  /\ fst (@packagerDeploy shell_v42_deployed (initial env_override)) = inr tt
  /\ started (st_trace (snd (@packagerDeploy shell_v42_deployed
                               (initial env_override))))
     = ["packagerImageUpload"; "packagerInstanceTemplateCreate";
        "packagerUpdateStart"]
  /\ List.length (@packagerDeploy_steps shell_v42_deployed)
     <> List.length (@deploy_steps shell_v42_deployed)
  /\ fst (@packagerDeploy shell_v42_deployed (initial env_override))
     <> fst (@packagerDeploy_as_specified shell_v42_deployed
               (initial env_override)).
Proof.
  assert (E : fst (@packagerDeploy_as_specified shell_v42_deployed
                     (initial env_override))
              = inl (Thrown
                  "The commit v42 you are trying to build has already been deployed!"))
    by (vm_compute; reflexivity).
  assert (F : fst (@packagerDeploy shell_v42_deployed (initial env_override))
              = inr tt) by (vm_compute; reflexivity).
  split; [exact E|]. split; [vm_compute; reflexivity|].
  split; [exact F|]. split; [vm_compute; reflexivity|].
  split; [cbn; discriminate|].
  rewrite E, F. discriminate.
Qed.

Lemma packagerDeploy_runs_three_steps_witness :
  started (st_trace (snd (@packagerDeploy shell_empty_registry
                            (initial env_override))))
  = ["packagerImageUpload"; "packagerInstanceTemplateCreate";
     "packagerUpdateStart"]
  /\ commands (st_trace (snd (@packagerDeploy shell_empty_registry
                               (initial env_override))))
     = packager_commands (config env_override).
Proof.
  destruct (@packagerDeploy_runs_three_steps shell_empty_registry
              (initial env_override)) as (_ & H & _).
  exact (H eq_refl).
Defined.

Lemma exported_tasks_leave_config_witness :
  st_config (@run_all shell_v42_deployed
               [void verifyTag; void imageBuild; packagerDeploy; void updateStop]
               (initial env_override))
  = config env_override.
Proof.
  destruct (@exported_tasks_leave_config shell_v42_deployed env_override)
    as (_ & H & _).
  apply H. repeat constructor; cbn; tauto.
Defined.

End DeployFacts.

(** ** The code-preview partial *)

Module CodePreviewFacts.
Import Text CodePreview.

(** *** Occurrence of a block *)

Lemma occurs_refl (b : list Piece) : occurs b b.
Proof. exists [], []. now rewrite app_nil_r. Qed.

Lemma occurs_app_l (b x y : list Piece) : occurs b x -> occurs b (x ++ y)%list.
Proof.
  intros (u & v & ->). exists u, (v ++ y)%list. now rewrite <- !app_assoc.
Qed.

Lemma occurs_app_r (b x y : list Piece) : occurs b y -> occurs b (x ++ y)%list.
Proof.
  intros (u & v & ->). exists (x ++ u)%list, v. now rewrite <- !app_assoc.
Qed.

Lemma occurs_cons (b : list Piece) (a : Piece) (y : list Piece) :
  occurs b y -> occurs b (a :: y).
Proof. apply (occurs_app_r b [a] y). Qed.

Lemma occurs_head (a : Piece) (y : list Piece) : occurs [a] (a :: y).
Proof. now exists [], y. Qed.

Lemma occurs_In (b out : list Piece) (d : Piece) :
  occurs b out -> In d b -> In d out.
Proof.
  intros (u & v & ->) H. apply in_or_app. right. apply in_or_app. now left.
Qed.

Lemma Piece_eqb_eq (a b : Piece) : Piece_eqb a b = true <-> a = b.
Proof.
  destruct a, b; simpl; rewrite ?String.eqb_eq;
    split; intros H; try discriminate; congruence.
Qed.

Lemma In_existsb (d : Piece) (l : list Piece) :
  In d l <-> existsb (Piece_eqb d) l = true.
Proof.
  rewrite existsb_exists. split.
  - intros H. exists d. split; [exact H | now apply Piece_eqb_eq].
  - intros (x & Hx & E). apply Piece_eqb_eq in E. now subst.
Qed.

(** A block of which one piece is missing from the output does not occur
    in it. *)
Lemma missing_piece (d : Piece) (b out : list Piece) :
  existsb (Piece_eqb d) b = true ->
  existsb (Piece_eqb d) out = false ->
  ~ occurs b out.
Proof.
  intros Hb Hout Hocc. apply In_existsb in Hb.
  apply (occurs_In _ _ _ Hocc), In_existsb in Hb. congruence.
Qed.

Ltac absent k :=
  match goal with
  | |- ~ occurs ?b _ =>
      apply (missing_piece (piece_at k b));
      [ vm_compute; reflexivity
      | try match goal with
            | |- context [playground ?p] => destruct (playground p)
            end;
        vm_compute; reflexivity ]
  end.

Section Rendering.
Context {page : Page}.

(** C5: with mode [none] the output is blank pieces around the
    content, followed by the playground link if there is one, and
    nothing else: no markup of it has a class of the widget
    ([ap-o-code-preview] and the classes that start so) in it, so there
    is neither a wrapping container nor any mode block. With mode
    [inline], [top-frame] or [side-frame] the output is the container
    around the block of that mode and the content, with the link after
    it if there is one: the markup that opens the block of the mode is
    written, and the markup that opens either of the two other blocks is
    not. *)
Theorem mode_selects_its_block (p : Preview) (content : string) :
  let out := render p content in
  let link := if playground p then playground_link p else [] in
  let inline_tag := unquote "<div class=`ap-o-code-preview-preview`>" in
  let top_tag := unquote "<div class=`ap-o-code-preview-top-preview " in
  let side_tag := unquote "class=`ap-o-code-preview-side-preview-frame " in
  (mode p = "none" ->
     out = ([gap; gap; line; Safe content; gap; line; line] ++ link)%list
     /\ writes "ap-o-code-preview" out = false
     /\ writes "<amp-" out = false)
  /\ (mode p = "inline" ->
        out = (container_open p ++ [gap] ++ inline_block p
               ++ [gap; line; Safe content; gap; line]
               ++ container_close ++ [line] ++ link)%list
        /\ writes inline_tag out = true
        /\ writes top_tag out = false
        /\ writes side_tag out = false)
  /\ (mode p = "top-frame" ->
        out = (container_open p ++ [gap; gap] ++ top_frame_block p
               ++ [line; Safe content; gap; line]
               ++ container_close ++ [line] ++ link)%list
        /\ writes top_tag out = true
        /\ writes inline_tag out = false
        /\ writes side_tag out = false)
  /\ (mode p = "side-frame" ->
        out = (container_open p ++ [gap; gap; line; Safe content; gap]
               ++ side_frame_block p ++ [line]
               ++ container_close ++ [line] ++ link)%list
        /\ writes side_tag out = true
        /\ writes inline_tag out = false
        /\ writes top_tag out = false).
Proof.
  intros out link inline_tag top_tag side_tag.
  subst out link inline_tag top_tag side_tag. unfold render.
  split; [|split; [|split]]; intros Hmode; rewrite Hmode;
    (split; [reflexivity|]);
    destruct (playground p); vm_compute; repeat split.
Qed.

(** C10: whatever the descriptor, mode [none] included, the output has
    the content in it. When [preview.playground] is set, the output ends
    with the playground link, an [a] element of class
    [ap--playground-link] whose [href] is made of the playground's base
    url and the encoded url of the preview, and nothing before the link
    is a link. When it is not set, no markup of the output has an [a]
    element, the class or the query of the link in it. *)
Theorem content_and_playground_link (p : Preview) (content : string) :
  let out := render p content in
  occurs [Safe content] out
  /\ (occurs (playground_link p) out <-> playground p = true)
  /\ (playground p = true ->
      (exists before,
          out = (before ++ playground_link p)%list
          /\ writes "<a " before = false
          /\ writes "</a>" before = false)
      /\ writes (unquote "<a href=`") out = true
      /\ writes (unquote "class=`ap-m-lnk ap--playground-link`") out = true
      /\ writes "</a>" out = true
      /\ after_markup (unquote "<a href=`") out = [playground_base_url]
      /\ after_markup "/?url=" out = [urlencode (url p)]
      /\ after_markup (unquote "<span class=`ap-m-lnk-text`>") out
         = [gettext "Open this snippet in playground"])
  /\ (playground p = false ->
      writes "<a " out = false
      /\ writes "</a>" out = false
      /\ writes "ap--playground-link" out = false
      /\ writes "/?url=" out = false
      /\ after_markup "/?url=" out = []).
Proof.
  intros out. subst out. unfold render. split; [|split; [|split]].
  - do 5 apply occurs_app_r. apply occurs_app_l.
    apply occurs_cons, occurs_head.
  - destruct (playground p) eqn:E.
    + split; [reflexivity|]. intros _.
      do 10 apply occurs_app_r. apply occurs_refl.
    + split; [|discriminate]. intros H. exfalso. revert H.
      match goal with |- ?A -> False => change (~ A) end.
      destruct (mode p =? "none"), (mode p =? "inline"),
        (mode p =? "top-frame"), (mode p =? "side-frame");
        absent 0%nat.
  - intros E. rewrite E. split.
    + eexists. split; [|split].
      * rewrite !app_assoc. reflexivity.
      * destruct (mode p =? "none"), (mode p =? "inline"),
          (mode p =? "top-frame"), (mode p =? "side-frame");
          vm_compute; reflexivity.
      * destruct (mode p =? "none"), (mode p =? "inline"),
          (mode p =? "top-frame"), (mode p =? "side-frame");
          vm_compute; reflexivity.
    + destruct (mode p =? "none"), (mode p =? "inline"),
        (mode p =? "top-frame"), (mode p =? "side-frame");
        vm_compute; repeat split.
  - intros E. rewrite E.
    destruct (mode p =? "none"), (mode p =? "inline"),
      (mode p =? "top-frame"), (mode p =? "side-frame");
      vm_compute; repeat split.
Qed.

End Rendering.

(** *** Sample renderings *)

Lemma mode_selects_its_block_witness :
  @render page_plain (preview_of "none") "<pre>code</pre>"
  = ([gap; gap; line; Safe "<pre>code</pre>"; gap; line; line]
     ++ @playground_link page_plain (preview_of "none"))%list
  /\ writes (unquote "<div class=`ap-o-code-preview-preview`>")
            (@render page_plain (preview_of "inline") "<pre>code</pre>")
     = true
  /\ writes (unquote "<div class=`ap-o-code-preview-top-preview ")
            (@render page_plain (preview_of "top-frame") "<pre>code</pre>")
     = true
  /\ writes (unquote "class=`ap-o-code-preview-side-preview-frame ")
            (@render page_plain (preview_of "side-frame") "<pre>code</pre>")
     = true.
Proof.
  split; [|split; [|split]].
  - destruct (@mode_selects_its_block page_plain (preview_of "none")
                "<pre>code</pre>") as (H & _).
    destruct (H eq_refl) as (H1 & _). exact H1.
  - destruct (@mode_selects_its_block page_plain (preview_of "inline")
                "<pre>code</pre>") as (_ & H & _).
    destruct (H eq_refl) as (_ & H1 & _). exact H1.
  - destruct (@mode_selects_its_block page_plain (preview_of "top-frame")
                "<pre>code</pre>") as (_ & _ & H & _).
    destruct (H eq_refl) as (_ & H1 & _). exact H1.
  - destruct (@mode_selects_its_block page_plain (preview_of "side-frame")
                "<pre>code</pre>") as (_ & _ & _ & H).
    destruct (H eq_refl) as (_ & H1 & _). exact H1.
Defined.

Lemma content_and_playground_link_witness :
  writes "</a>" (@render page_plain (preview_of "none") "<pre>code</pre>")
  = true
  /\ writes "</a>"
       (@render page_plain
          {| mode := "none"; source := EmptyString; orientation := EmptyString;
             index := 3; url := "/documentation/examples/preview/3";
             playground := false |}
          "<pre>code</pre>")
     = false.
Proof.
  split.
  - destruct (@content_and_playground_link page_plain (preview_of "none")
                "<pre>code</pre>") as (_ & _ & H & _).
    destruct (H eq_refl) as (_ & _ & _ & H1 & _). exact H1.
  - match goal with |- writes _ (render ?p ?c) = false =>
      destruct (@content_and_playground_link page_plain p c)
        as (_ & _ & _ & H) end.
    destruct (H eq_refl) as (_ & H1 & _). exact H1.
Defined.

End CodePreviewFacts.

(** * Further properties *)

(** ** The deployment tasks, continued *)

Module DeployMore.
Import Text TextFacts Deploy DeployFacts.

(** *** What the tasks emit *)

Section Emitting.
Context {shell : Shell}.
Variable cfg : Config.
Variable P : Event -> Prop.

Lemma emits_here {A} (m : M A) :
  (forall s, snd (m s) = s) -> emits_in cfg P m.
Proof.
  intros H s E. exists []. rewrite H, app_nil_r. subst cfg.
  split; [now destruct s | constructor].
Qed.

Lemma emits_event {A} (m : M A) (e : Event) :
  P e -> (forall s, snd (m s) = emit e s) -> emits_in cfg P m.
Proof.
  intros He H s E. exists [e]. rewrite H. subst cfg.
  split; [reflexivity | now constructor].
Qed.

Lemma emits_ret {A} (a : A) : emits_in cfg P (ret a).
Proof. now apply emits_here. Qed.

Lemma emits_throw {A} (msg : string) : emits_in cfg P (@throw _ A msg).
Proof. now apply emits_here. Qed.

Lemma emits_await {A} (p : Promise A) : emits_in cfg P (await p).
Proof. now apply emits_here. Qed.

Lemma emits_console_log (args : list Printed) :
  P (Log args) -> emits_in cfg P (console_log args).
Proof. intros H. now apply emits_event with (e := Log args). Qed.

Lemma emits_sh (cmd : string) (o : option ShOpts) :
  P (Sh cmd o) -> emits_in cfg P (sh cmd o).
Proof. intros H. now apply emits_event with (e := Sh cmd o). Qed.

Lemma emits_bind {A B} (m : M A) (k : A -> M B) :
  emits_in cfg P m -> (forall a, emits_in cfg P (k a)) ->
  emits_in cfg P (bind m k).
Proof.
  intros Hm Hk s E. unfold bind.
  destruct (Hm s E) as (e1 & E1 & F1).
  destruct (m s) as [[err|a] s1]; simpl in E1; subst s1.
  - now exists e1.
  - destruct (Hk a {| st_config := cfg;
                      st_trace := (st_trace s ++ e1)%list |} eq_refl)
      as (e2 & E2 & F2).
    exists (e1 ++ e2)%list. rewrite E2. simpl.
    rewrite app_assoc. split; [reflexivity | now apply Forall_app].
Qed.

(** What follows [config] being read is run on the configuration the
    computation started on. *)
Lemma emits_read {B} (k : Config -> M B) :
  emits_in cfg P (k cfg) -> emits_in cfg P (bind read_config k).
Proof.
  intros Hk s E. unfold bind, read_config. rewrite E. now apply Hk.
Qed.

Lemma emits_void {A} (m : M A) : emits_in cfg P m -> emits_in cfg P (void m).
Proof. intros H. apply emits_bind; [exact H | intros; apply emits_ret]. Qed.

Lemma emits_map_calls {A B} (f : A -> M B) (l : list A) :
  (forall x, emits_in cfg P (f x)) -> emits_in cfg P (calls (map_calls f l)).
Proof.
  intros Hf. unfold calls.
  induction l as [|x l IH]; intros s E.
  - exists []. simpl. rewrite app_nil_r. subst cfg.
    split; [now destruct s | constructor].
  - cbn [map_calls]. destruct (Hf x s E) as (e1 & E1 & F1).
    destruct (f x s) as [p s1]. simpl in E1. subst s1.
    destruct (IH {| st_config := cfg;
                    st_trace := (st_trace s ++ e1)%list |} eq_refl)
      as (e2 & E2 & F2).
    destruct (map_calls f l _) as [ps s2]. simpl in E2 |- *. subst s2.
    exists (e1 ++ e2)%list. simpl.
    rewrite app_assoc. split; [reflexivity | now apply Forall_app].
Qed.

Lemma emits_series (ts : list Task) :
  (forall name, P (Started name)) ->
  Forall (fun t => emits_in cfg P (task_body t)) ts ->
  emits_in cfg P (series ts).
Proof.
  intros HS. induction 1 as [|t ts Ht _ IH]; cbn [series].
  - apply emits_ret.
  - apply emits_bind; [|intros _; apply emits_bind; [exact Ht | intros _; exact IH]].
    apply emits_event with (e := Started (task_name t)); [apply HS|].
    reflexivity.
Qed.

End Emitting.

Ltac emits_tac :=
  repeat first
    [ apply emits_read
    | apply emits_bind; [|intros]
    | apply emits_map_calls; intros
    | apply emits_void
    | apply emits_sh; first [reflexivity | exact I]
    | apply emits_console_log; exact I
    | apply emits_ret
    | apply emits_throw
    | apply emits_await
    | match goal with
      | |- emits_in _ _ (if ?b then _ else _) => destruct b
      end ].

Section MoreTaskFacts.
Context {shell : Shell}.

Lemma exports_emit_tools (cfg : Config) :
  Forall (fun export => emits_in cfg tool_event (snd export)) exports.
Proof.
  unfold exports.
  repeat (apply Forall_cons; [cbn [snd]|]); try apply Forall_nil.
  all: try (unfold deploy, deploy_steps, packagerDeploy, packagerDeploy_steps;
            apply emits_series; [intros; exact I|];
            repeat (apply Forall_cons; [cbn [task task_body]|]);
            try apply Forall_nil).
  all: unfold verifyTag, gcloudSetup, imageBuild, imageList, imageRunLocal,
         imageUpload, instanceTemplateCreate, updateStart, updateStatus,
         updateStop, packagerImageUpload, packagerInstanceTemplateCreate,
         packagerUpdateStart.
  all: emits_tac.
Qed.

(** X5: every command an exported task spawns, on any configuration and
    whatever the commands answer, starts with the word [gcloud] or the
    word [docker]: the values put into a command come after its fixed
    first words. *)
Theorem exports_run_gcloud_or_docker_only (s : State) :
  Forall (fun export =>
            Forall (fun cmd => runs_gcloud_or_docker cmd = true)
                   (commands (added (st_trace s)
                                    (st_trace (snd (snd export s))))))
         exports.
Proof.
  pose proof (exports_emit_tools (st_config s)) as H.
  eapply Forall_impl; [|exact H]. intros [name t] Ht. cbn [snd] in *.
  destruct (Ht s eq_refl) as (evs & E & F). rewrite E. cbn [st_trace].
  rewrite added_app. clear E.
  induction F as [|[n|c o|a] evs Hx _ IH]; cbn [commands]; auto.
Qed.

Lemma emitted {A} (cfg : Config) (P : Event -> Prop) (m : M A) (s : State) :
  emits_in cfg P m -> st_config s = cfg ->
  Forall P (added (st_trace s) (st_trace (snd (m s)))).
Proof.
  intros H E. destruct (H s E) as (evs & Es & F).
  rewrite Es. cbn [st_trace]. now rewrite added_app.
Qed.

(** X6: every command of the packager tasks is run with
    [config.packager.opts], that is in the packager's working directory,
    and no command of any other exported task is given a working
    directory. *)
Theorem packager_tasks_run_in_packager_dir (s : State) :
  let opts := Some (packager_opts (config_packager (st_config s))) in
  let events (t : M unit) := added (st_trace s) (st_trace (snd (t s))) in
  Forall (fun t => Forall (run_with opts) (events t))
         [ packagerDeploy; void packagerImageUpload;
           void packagerInstanceTemplateCreate; void packagerUpdateStart ]
  /\ Forall (fun t => Forall run_in_place (events t))
            [ void verifyTag; void gcloudSetup; deploy; void imageBuild;
              void imageList; void imageRunLocal; void imageUpload;
              void instanceTemplateCreate; void updateStop;
              void updateStatus; void updateStart ].
Proof.
  intros opts events. subst events. split.
  all: repeat (apply Forall_cons; [|]); try apply Forall_nil.
  all: apply (emitted (st_config s)); [|reflexivity].
  all: try (unfold deploy, deploy_steps, packagerDeploy, packagerDeploy_steps;
            apply emits_series; [intros; exact I|];
            repeat (apply Forall_cons; [cbn [task task_body]|]);
            try apply Forall_nil).
  all: unfold verifyTag, gcloudSetup, imageBuild, imageList, imageRunLocal,
         imageUpload, instanceTemplateCreate, updateStart, updateStatus,
         updateStop, packagerImageUpload, packagerInstanceTemplateCreate,
         packagerUpdateStart.
  all: emits_tac.
Qed.

(** *** Calls made side by side *)

Lemma Promise_all_inr {A} (ps : list (Promise A)) (outs : list A) :
  Promise_all ps = inr outs -> ps = map inr outs.
Proof.
  revert outs. induction ps as [|[e|a] ps IH]; intros outs H; cbn in H.
  - injection H as <-. reflexivity.
  - discriminate.
  - destruct (Promise_all ps) as [e|l]; [discriminate|].
    injection H as <-. cbn. now rewrite (IH l eq_refl).
Qed.

Lemma Promise_all_inl {A} (ps : list (Promise A)) (e : Error) :
  Promise_all ps = inl e -> In (inl e) ps.
Proof.
  induction ps as [|[e'|a] ps IH]; intros H; cbn in H.
  - discriminate.
  - injection H as ->. now left.
  - destruct (Promise_all ps) as [e'|l]; [|discriminate].
    injection H as ->. right. now apply IH.
Qed.

Lemma Promise_all_resolves {A} (ps : list (Promise A)) :
  (forall p, In p ps -> exists a, p = inr a) ->
  exists outs, Promise_all ps = inr outs.
Proof.
  induction ps as [|p ps IH]; intros H; cbn.
  - now eexists.
  - destruct (H p (or_introl eq_refl)) as [a ->].
    destruct IH as [l ->]; [intros q Hq; apply H; now right|].
    now eexists.
Qed.

Lemma Promise_all_rejects {A} (ps : list (Promise A)) (e : Error) :
  In (inl e) ps -> exists e', Promise_all ps = inl e'.
Proof.
  induction ps as [|[e'|a] ps IH]; intros H; cbn.
  - destruct H.
  - now eexists.
  - destruct H as [H|H]; [discriminate|].
    destruct (IH H) as [e' ->]. now eexists.
Qed.

Lemma Forall2_in_l {A B} (R : A -> B -> Prop) (l : list A) (l' : list B)
      (x : A) :
  Forall2 R l l' -> In x l -> exists y, In y l' /\ R x y.
Proof.
  induction 1 as [|a b l l' Hab _ IH]; intros H; [destruct H|].
  destruct H as [->|H]; [exists b; split; [now left | exact Hab]|].
  destruct (IH H) as (y & Hy & Hxy). exists y. split; [now right | exact Hxy].
Qed.

Lemma Forall2_in_r {A B} (R : A -> B -> Prop) (l : list A) (l' : list B)
      (y : B) :
  Forall2 R l l' -> In y l' -> exists x, In x l /\ R x y.
Proof.
  induction 1 as [|a b l l' Hab _ IH]; intros H; [destruct H|].
  destruct H as [->|H]; [exists a; split; [now left | exact Hab]|].
  destruct (IH H) as (x & Hx & Hxy). exists x. split; [now right | exact Hxy].
Qed.

(** Each call of the map gets the answer of the outside world to its own
    command, at the moment it is made. *)
Lemma map_calls_sh_outcomes {A} (cmd : A -> string) (o : option ShOpts)
      (l : list A) (s : State) :
  Forall2 (fun x p => exists h, p = settled (sh_reply h (cmd x) o))
          l (fst (map_calls (fun x => sh (cmd x) o) l s)).
Proof.
  revert s. induction l as [|x l IH]; intros s; cbn [map_calls].
  - constructor.
  - unfold sh at 1. specialize (IH (emit (Sh (cmd x) o) s)).
    destruct (map_calls _ l _) as [ps s2]. cbn [fst] in IH |- *.
    constructor; [|exact IH]. now exists (st_trace s).
Qed.

Lemma updateStart_run (s : State) :
  updateStart s =
  let calls_made :=
    map_calls (fun g => sh (start_update_command (st_config s) g) None)
              (instance_groups (config_instance (st_config s))) s in
  match Promise_all (fst calls_made) with
  | inl e => (inl e, snd calls_made)
  | inr _ =>
      (inr tt, emit (Log [Words update_started_message]) (snd calls_made))
  end.
Proof.
  unfold updateStart, bind, read_config, calls, await, console_log.
  cbn [fst snd]. unfold start_update_command, update_started_message.
  destruct (map_calls _ _ s) as [ps s1]. cbn [fst snd].
  now destruct (Promise_all ps).
Qed.

(** X3: [updateStart] either resolves, having printed its message
    once, or rejects with the rejection of one of its commands, having
    printed nothing; it never raises an error of its own. It resolves
    when the command of every group succeeds, in particular when no
    group is configured, and rejects when the command of some group
    fails. *)
Theorem updateStart_outcome (s : State) :
  let groups := instance_groups (config_instance (st_config s)) in
  let cmd := start_update_command (st_config s) in
  let tr := added (st_trace s) (st_trace (snd (updateStart s))) in
  ((fst (updateStart s) = inr tt
    /\ logged tr = [[Words update_started_message]])
   \/ (exists e, fst (updateStart s) = inl (Rejected e) /\ logged tr = []))
  /\ ((forall g h, In g groups -> exists out, sh_reply h (cmd g) None = inr out)
      -> fst (updateStart s) = inr tt)
  /\ (forall g, In g groups ->
        (forall h, exists e, sh_reply h (cmd g) None = inl e) ->
        exists e, fst (updateStart s) = inl (Rejected e)).
Proof.
  intros groups cmd tr. subst tr. rewrite updateStart_run. cbn zeta.
  fold groups. fold cmd.
  pose proof (map_calls_sh_outcomes cmd None groups s) as O.
  pose proof (map_calls_sh cmd None groups s) as T.
  destruct (map_calls _ groups s) as [ps s1]. cbn [fst snd] in O, T |- *.
  subst s1.
  assert (L : forall l, logged (map (fun x => Sh (cmd x) None) l) = [])
    by (induction l; cbn; auto).
  assert (Lapp : forall a b, logged (a ++ b)%list = (logged a ++ logged b)%list).
  { induction a as [|[n|c o|x] a IH]; intros b; cbn; auto. now rewrite IH. }
  destruct (Promise_all ps) as [e|outs] eqn:E; cbn [fst snd emit st_trace].
  - apply Promise_all_inl in E.
    destruct (Forall2_in_r _ _ _ _ O E) as (g & Hg & h & Eh).
    split; [|split].
    + right. destruct (sh_reply h (cmd g) None) as [e'|out];
        [|discriminate]. exists e'. injection Eh as ->.
      split; [reflexivity|]. now rewrite added_app, L.
    + intros Hok. destruct (Hok g h Hg) as [out Eo].
      rewrite Eo in Eh. discriminate.
    + intros _ _ _. destruct (sh_reply h (cmd g) None) as [e'|out];
        [|discriminate]. exists e'. now injection Eh as ->.
  - split; [|split].
    + left. split; [reflexivity|].
      now rewrite <- app_assoc, added_app, Lapp, L.
    + reflexivity.
    + intros g Hg Hfail. exfalso. apply Promise_all_inr in E. subst ps.
      destruct (Forall2_in_l _ _ _ _ O Hg) as (p & Hp & h & Eh).
      apply in_map_iff in Hp. destruct Hp as (out & <- & _).
      destruct (Hfail h) as [e Ee]. rewrite Ee in Eh. discriminate.
Qed.

Lemma logged_sh (A : Type) (cmd : A -> string) (o : option ShOpts)
      (l : list A) :
  logged (map (fun x => Sh (cmd x) o) l) = [].
Proof. induction l; cbn; auto. Qed.

(** X4: [updateStatus] spawns one describe command per configured group, in
    list order, each with the zone of its group, and prints nothing;
    when it resolves, it resolves to one text per group, in list order,
    each the output of the command for that group. *)
Theorem updateStatus_one_status_per_group (s : State) :
  let groups := instance_groups (config_instance (st_config s)) in
  let tr := added (st_trace s) (st_trace (snd (updateStatus s))) in
  commands tr
  = map (fun group =>
           "gcloud beta compute instance-groups managed describe "
           ++ group_name group ++ " "
           ++ spaces 13 ++ "--zone=" ++ group_zone group)
        groups
  /\ logged tr = []
  /\ (forall outs, fst (updateStatus s) = inr outs ->
        Forall2 (fun group out =>
                   exists h, sh_reply h (describe_command group) None = inr out)
                groups outs).
Proof.
  intros groups tr. subst tr.
  unfold updateStatus, bind, read_config, calls, await. cbn [fst snd].
  fold groups.
  pose proof (map_calls_sh_outcomes describe_command None groups s) as O.
  pose proof (map_calls_sh describe_command None groups s) as T.
  unfold describe_command in O, T at 1 2.
  destruct (map_calls _ groups s) as [ps s1]. cbn [fst snd] in O, T |- *.
  subst s1. cbn [st_trace]. rewrite added_app.
  split; [apply commands_sh|]. split; [apply logged_sh|].
  intros outs H. apply Promise_all_inr in H. subst ps.
  clear -O. revert outs O.
  induction groups as [|g groups IH]; intros [|out outs] O;
    inversion O; subst; constructor.
  - destruct H2 as [h Eh]. exists h. unfold settled in Eh.
    destruct (sh_reply h _ None); [discriminate | now injection Eh as ->].
  - now apply IH.
Qed.

(** *** Commands run one after the other *)

(** X2: [gcloudSetup] runs its three commands one at a time, the
    docker authorisation, the region setting and the zone setting: each
    is spawned once the one before it has succeeded; when one fails,
    whichever it is, [gcloudSetup] rejects with that failure and spawns
    nothing after it; and it resolves when all three have succeeded. *)
Theorem gcloudSetup_stops_at_first_failure (s : State) :
  let c1 := "gcloud auth configure-docker" in
  let c2 := "gcloud config set compute/region "
            ++ gcloud_region (config_gcloud (st_config s)) in
  let c3 := "gcloud config set compute/zone "
            ++ gcloud_zone (config_gcloud (st_config s)) in
  let tr := added (st_trace s) (st_trace (snd (gcloudSetup s))) in
  match sh_reply (st_trace s) c1 None with
  | inl e => fst (gcloudSetup s) = inl (Rejected e) /\ tr = [Sh c1 None]
  | inr _ =>
      match sh_reply (st_trace s ++ [Sh c1 None])%list c2 None with
      | inl e =>
          fst (gcloudSetup s) = inl (Rejected e)
          /\ tr = [Sh c1 None; Sh c2 None]
      | inr _ =>
          match sh_reply (st_trace s ++ [Sh c1 None; Sh c2 None])%list
                         c3 None with
          | inl e =>
              fst (gcloudSetup s) = inl (Rejected e)
              /\ tr = [Sh c1 None; Sh c2 None; Sh c3 None]
          | inr _ =>
              fst (gcloudSetup s) = inr tt
              /\ tr = [Sh c1 None; Sh c2 None; Sh c3 None]
          end
      end
  end.
Proof.
  intros c1 c2 c3 tr. subst tr c1 c2 c3.
  unfold gcloudSetup, bind, read_config, sh, ret.
  cbn [fst snd emit st_trace st_config].
  destruct (sh_reply (st_trace s) _ None) as [e1|o1];
    cbn [fst snd emit st_trace st_config].
  { now rewrite added_app. }
  rewrite <- ?app_assoc. cbn [app].
  destruct (sh_reply (st_trace s ++ [_])%list _ None) as [e2|o2];
    cbn [fst snd emit st_trace st_config].
  { now rewrite <- ?app_assoc, added_app. }
  rewrite <- ?app_assoc. cbn [app].
  destruct (sh_reply (st_trace s ++ [_; _])%list _ None) as [e3|o3];
    cbn [fst snd emit st_trace st_config];
    now rewrite <- ?app_assoc, added_app.
Qed.

Lemma imageUpload_run (s : State) :
  imageUpload s
  = (settled (sh_reply (st_trace s) (upload_command (st_config s)) None),
     emit (Sh (upload_command (st_config s)) None) s).
Proof. reflexivity. Qed.

Lemma instanceTemplateCreate_run (s : State) :
  instanceTemplateCreate s
  = (settled (sh_reply (st_trace s) (template_command (st_config s)) None),
     emit (Sh (template_command (st_config s)) None) s).
Proof. reflexivity. Qed.

Lemma updateStart_resolves_or_rejects (s : State) :
  fst (updateStart s) = inr tt
  \/ exists e, fst (updateStart s) = inl (Rejected e).
Proof.
  rewrite updateStart_run. cbn zeta.
  pose proof (map_calls_sh_outcomes (start_update_command (st_config s)) None
                (instance_groups (config_instance (st_config s))) s) as O.
  destruct (map_calls _ _ s) as [ps s1]. cbn [fst snd] in O |- *.
  destruct (Promise_all ps) as [e|outs] eqn:E; [|now left].
  right. apply Promise_all_inl in E.
  destruct (Forall2_in_r _ _ _ _ O E) as (g & _ & h & Eh).
  unfold settled in Eh. destruct (sh_reply h _ None) as [e'|out];
    [|discriminate]. exists e'. now injection Eh as ->.
Qed.

(** X1: the commands a [deploy] spawns are the first few, at
    least one, of: the registry query, the upload of [image.current], the
    creation of [instance.template] from [image.current], and the update
    of every group to [instance.template]; all of them when [deploy]
    resolves. The only error [deploy] raises of its own is the tag
    collision, and then the registry query is the only command spawned:
    nothing has been uploaded, created or updated. *)
Theorem deploy_commands_in_order (s : State) :
  let cmds := deploy_commands (st_config s) in
  let tr := added (st_trace s) (st_trace (snd (deploy s))) in
  (exists n, (1 <= n)%nat /\ commands tr = firstn n cmds)
  /\ (fst (deploy s) = inr tt -> commands tr = cmds)
  /\ (forall msg, fst (deploy s) = inl (Thrown msg) ->
        msg = collision_message (st_config s)
        /\ commands tr = [list_tags_query (st_config s)]).
Proof.
  intros cmds tr. subst tr cmds. unfold deploy, deploy_steps.
  rewrite series_cons. cbn [task task_name task_body].
  rewrite void_run, verifyTag_run. cbn [emit st_trace st_config].
  destruct (sh_reply _ _ quiet) as [e0|tags];
    cbn [fst snd emit st_trace st_config].
  { rewrite <- !app_assoc, added_app. cbn [app commands].
    split; [exists 1%nat; now split|]. split; discriminate. }
  destruct (includes _ tags); cbn [fst snd emit st_trace st_config].
  { rewrite <- !app_assoc, added_app. cbn [app commands].
    split; [exists 1%nat; now split|]. split; [discriminate|].
    intros msg H. injection H as <-. now split. }
  rewrite series_cons. cbn [task task_name task_body].
  rewrite void_run, imageUpload_run. cbn [fst snd emit st_trace st_config].
  destruct (sh_reply _ (upload_command _) None) as [e1|o1];
    cbn [settled fst snd emit st_trace st_config].
  { rewrite <- !app_assoc, added_app. cbn [app commands].
    split; [exists 2%nat; split; [auto with arith | reflexivity]|].
    split; discriminate. }
  rewrite series_cons. cbn [task task_name task_body].
  rewrite void_run, instanceTemplateCreate_run.
  cbn [fst snd emit st_trace st_config].
  destruct (sh_reply _ (template_command _) None) as [e2|o2];
    cbn [settled fst snd emit st_trace st_config].
  { rewrite <- !app_assoc, added_app. cbn [app commands].
    split; [exists 3%nat; split; [auto with arith | reflexivity]|].
    split; discriminate. }
  rewrite series_cons. cbn [task task_name task_body].
  rewrite void_run.
  match goal with |- context [updateStart ?s4] =>
    destruct (updateStart_trace s4) as (logs & E & L);
    destruct (updateStart_resolves_or_rejects s4) as [R|[e3 R]];
    destruct (updateStart s4) as [r s5] end;
    cbn [fst snd emit st_trace st_config] in E, R; subst r.
  all: assert (C : commands (added (st_trace s) (st_trace s5))
                   = deploy_commands (st_config s))
         by (rewrite E, <- !app_assoc, added_app; cbn [app commands];
             rewrite !commands_app, L, app_nil_r; cbn [app commands];
             now rewrite commands_sh).
  all: cbn [fst snd series ret]; rewrite C.
  all: (split;
        [exists (List.length (deploy_commands (st_config s)));
         split; [cbn; auto with arith | now rewrite firstn_all]|]).
  all: split; [reflexivity || discriminate | discriminate].
Qed.

(** *** [verifyTag] and text that merely contains the tag *)

(** X7: [verifyTag] raises the collision error whenever [config.tag]
    stands anywhere in the text of the registry query, be it inside a
    longer tag, a digest or a date. *)
Theorem verifyTag_rejects_part_of_listed_text
        (s : State) (before after : string) :
  sh_reply (st_trace s) (list_tags_query (st_config s)) quiet
    = inr (before ++ arg_text (config_tag (st_config s)) ++ after) ->
  fst (verifyTag s) = inl (Thrown (collision_message (st_config s))).
Proof.
  intros H. rewrite verifyTag_run, H. cbn [fst].
  assert (I : includes (arg_text (config_tag (st_config s)))
                       (before ++ arg_text (config_tag (st_config s)) ++ after)
              = true)
    by (apply includes_spec; now exists before, after).
  now rewrite I.
Qed.

End MoreTaskFacts.

Lemma verifyTag_rejects_part_of_listed_text_witness :
  arg_text (config_tag (config env_short_tag)) = "v4"
  /\ fst (@verifyTag shell_v42_deployed (initial env_short_tag))
     = inl (Thrown
              "The commit v4 you are trying to build has already been deployed!").
Proof.
  split; [reflexivity|].
  apply (@verifyTag_rejects_part_of_listed_text shell_v42_deployed
           (initial env_short_tag)
           ("DIGEST        TAGS  TIMESTAMP" ++ LF ++ "0a1b2c3d4e5f  ")
           "2   2019-10-31T09:00:00").
  reflexivity.
Defined.

Lemma updateStart_outcome_witness :
  fst (@updateStart shell_empty_registry (initial env_override)) = inr tt
  /\ exists e, fst (@updateStart shell_offline (initial env_override))
               = inl (Rejected e).
Proof.
  split.
  - destruct (@updateStart_outcome shell_empty_registry (initial env_override))
      as (_ & H & _).
    apply H. intros g h _. now eexists.
  - destruct (@updateStart_outcome shell_offline (initial env_override))
      as (_ & _ & H).
    apply (H {| group_name := "ig-amp-dev-europe";
                group_zone := "europe-west2-c" |}).
    + now left.
    + intros h. now eexists.
Defined.

Lemma deploy_commands_in_order_witness :
  commands (st_trace (snd (@deploy shell_empty_registry (initial env_override))))
  = deploy_commands (config env_override)
  /\ commands (st_trace (snd (@deploy shell_read_only (initial env_override))))
     = firstn 2 (deploy_commands (config env_override)).
Proof.
  split.
  - destruct (@deploy_commands_in_order shell_empty_registry
                (initial env_override)) as (_ & H & _).
    exact (H eq_refl).
  - reflexivity.
Defined.

(** *** The configuration object, continued *)

Lemma append_inj_l (a x y : string) : a ++ x = a ++ y -> x = y.
Proof. induction a; simpl; intros H; [exact H | injection H; auto]. Qed.

Lemma length_append (a b : string) :
  String.length (a ++ b) = (String.length a + String.length b)%nat.
Proof. induction a; simpl; congruence. Qed.

Lemma append_grows (a b : string) : a <> EmptyString -> b <> a ++ b.
Proof.
  intros Ha H. apply (f_equal String.length) in H.
  rewrite length_append in H. destruct a; [now elim Ha | simpl in H; lia].
Qed.

Lemma PROJECT_ID_truthy (env : Env) (v : Arg) :
  argv_project env = Some v -> arg_truthy v = true -> PROJECT_ID env = v.
Proof. intros E H. unfold PROJECT_ID. rewrite E. simpl. now rewrite H. Qed.

Lemma PROJECT_ID_falsy (env : Env) (v : Arg) :
  argv_project env = Some v -> arg_truthy v = false ->
  PROJECT_ID env = str "amp-dev-230314".
Proof. intros E H. unfold PROJECT_ID. rewrite E. simpl. now rewrite H. Qed.

Lemma concat_two_nonempty (sep a : string) (b : string) (l : list string) :
  sep <> EmptyString -> String.concat sep (a :: b :: l) <> EmptyString.
Proof.
  intros H. cbn [String.concat]. apply app_nonempty_r.
  destruct sep; [now elim H | discriminate].
Qed.

(** A truthy value prints as a non-empty text, provided its numbers do
    (as every number does). *)
Lemma truthy_text_nonempty (v : Arg) :
  numbers_print v -> arg_truthy v = true -> arg_text v <> EmptyString.
Proof.
  destruct v as [[b|n|s]|a b l]; cbn; intros W H.
  - now destruct b.
  - exact W.
  - now apply truthy_nonempty.
  - destruct (scalar_text a); [|discriminate].
    simpl. discriminate.
Qed.

Lemma or_default_text_nonempty (a : option Arg) (d : string) :
  match a with Some v => numbers_print v | None => True end ->
  d <> EmptyString -> arg_text (or_default a d) <> EmptyString.
Proof.
  intros W Hd. destruct a as [v|]; cbn [or_default]; [|exact Hd].
  destruct (arg_truthy v) eqn:T; [|exact Hd].
  now apply truthy_text_nonempty.
Qed.

(** X8: whatever the commandline, neither [config.tag] nor the project
    id prints as the empty text; a falsy value of a flag (the number 0
    that [mri] makes of [--tag 0], [false], the empty string) counts as
    no flag, so the default tag, or the default project, is taken; and a
    flag without a value, which [mri] hands over as [true], gives the tag
    or the project [true]. *)
Theorem tag_and_project_never_empty (env : Env) :
  match argv_tag env with Some v => numbers_print v | None => True end ->
  match argv_project env with Some v => numbers_print v | None => True end ->
  arg_text (TAG env) <> EmptyString
  /\ arg_text (PROJECT_ID env) <> EmptyString
  /\ (forall v, argv_tag env = Some v -> arg_truthy v = false ->
        arg_text (TAG env) = git_version env ++ "-" ++ of_N (Date_now env))
  /\ (forall v, argv_project env = Some v -> arg_truthy v = false ->
        arg_text (PROJECT_ID env) = "amp-dev-230314")
  /\ (argv_tag env = Some (One (SBool true)) -> arg_text (TAG env) = "true")
  /\ (argv_project env = Some (One (SBool true)) ->
        arg_text (PROJECT_ID env) = "true").
Proof.
  intros Wt Wp.
  split; [apply or_default_text_nonempty; [exact Wt | apply default_tag_nonempty]|].
  split; [apply or_default_text_nonempty; [exact Wp | discriminate]|].
  split; [intros v E H; now rewrite (TAG_falsy env v E H)|].
  split; [intros v E H; now rewrite (PROJECT_ID_falsy env v E H)|].
  split; intros E; [unfold TAG | unfold PROJECT_ID]; now rewrite E.
Qed.

Lemma tag_and_project_never_empty_witness :
  arg_text (TAG env_tag_zero) = "abc123-1572566400000"
  /\ arg_text (PROJECT_ID env_morning) = "amp-dev-230314"
  /\ arg_text (PROJECT_ID env_bare_project) = "true"
  /\ image_name (config_image (config env_bare_project)) = "gcr.io/true/amp-dev".
Proof.
  assert (W : numbers_print (One (SNumber zero))) by (cbn; discriminate).
  destruct (tag_and_project_never_empty env_tag_zero W I)
    as (_ & _ & H & _).
  destruct (tag_and_project_never_empty env_bare_project I I)
    as (_ & _ & _ & _ & _ & H').
  split; [exact (H _ eq_refl eq_refl)|].
  split; [reflexivity|]. split; [exact (H' eq_refl) | reflexivity].
Defined.

(** X9: for every commandline the packager's image name, image
    reference and template name differ from the main ones, and no
    instance group belongs to both: the two pipelines never address the
    same image, template or group. *)
Theorem packager_resources_apart (env : Env) :
  let c := config env in
  let p := config_packager c in
  image_name (packager_image p) <> image_name (config_image c)
  /\ image_current (packager_image p) <> image_current (config_image c)
  /\ instance_template (packager_instance p)
     <> instance_template (config_instance c)
  /\ Forall (fun g =>
               Forall (fun g' => group_name g' <> group_name g)
                      (instance_groups (packager_instance p)))
            (instance_groups (config_instance c)).
Proof.
  cbn. repeat split.
  - intros H. injection H as H. apply append_inj_l in H. discriminate.
  - intros H. injection H as H. apply append_inj_l in H. discriminate.
  - intros H. injection H as H.
    now apply (append_grows "packager-" (arg_text (TAG env))).
  - repeat constructor; discriminate.
Qed.

(** X10: with a truthy tag on the commandline, the configuration does
    not depend on the time or on the revision of the checkout: two runs
    with the same truthy value of [argv.tag], the same project and the
    same packager directory build the same configuration. *)
Theorem explicit_tag_fixes_config (env1 env2 : Env) (T : Arg) :
  arg_truthy T = true ->
  argv_tag env1 = Some T ->
  argv_tag env2 = Some T ->
  PROJECT_ID env1 = PROJECT_ID env2 ->
  join env1 (ROOT env1) "packager" = join env2 (ROOT env2) "packager" ->
  config env1 = config env2.
Proof.
  intros HT H1 H2 HP HJ. unfold config.
  rewrite (TAG_truthy env1 T H1 HT), (TAG_truthy env2 T H2 HT), HP, HJ.
  reflexivity.
Qed.

Lemma explicit_tag_fixes_config_witness :
  config env_override
  = config {| argv_tag := Some (str "v42");
              argv_project := Some (str "my-project");
              git_version := "0fedcba";
              Date_now := 1600000000000;
              ROOT := "/srv/amp.dev";
              join := fun a b => a ++ "/" ++ b |}.
Proof.
  apply (explicit_tag_fixes_config _ _ (str "v42"));
    [reflexivity | reflexivity | reflexivity | reflexivity | reflexivity].
Defined.

Lemma TAG_fresh (env1 env2 : Env) :
  argv_tag env1 = None -> argv_tag env2 = None ->
  Date_now env1 <> Date_now env2 ->
  arg_text (TAG env1) <> arg_text (TAG env2).
Proof.
  intros E1 E2 Hts Htag.
  rewrite (TAG_default _ E1), (TAG_default _ E2) in Htag.
  cbn [arg_text str scalar_text] in Htag.
  apply split_last_dash in Htag; try apply of_N_free.
  destruct Htag as [_ Hd]. now apply of_N_inj in Hd.
Qed.

(** X11: without a tag override, two runs at different times name
    different instance templates, for the main service and for the
    packager, and, for one project, different image references: no
    template or image of an earlier run is created again. *)
Theorem default_names_fresh (env1 env2 : Env) :
  argv_tag env1 = None ->
  argv_tag env2 = None ->
  Date_now env1 <> Date_now env2 ->
  instance_template (config_instance (config env1))
    <> instance_template (config_instance (config env2))
  /\ instance_template (packager_instance (config_packager (config env1)))
     <> instance_template (packager_instance (config_packager (config env2)))
  /\ (arg_text (PROJECT_ID env1) = arg_text (PROJECT_ID env2) ->
      image_current (config_image (config env1))
        <> image_current (config_image (config env2))
      /\ image_current (packager_image (config_packager (config env1)))
         <> image_current (packager_image (config_packager (config env2)))).
Proof.
  intros E1 E2 Hts. pose proof (TAG_fresh env1 env2 E1 E2 Hts) as F.
  cbn [config config_instance config_packager config_image packager_instance
       packager_image instance_template image_current].
  split; [|split; [|intros HP; rewrite HP; split]].
  all: intros H; repeat apply append_inj_l in H; now apply F.
Qed.

Lemma default_names_fresh_witness :
  instance_template (config_instance (config env_morning))
    <> instance_template (config_instance (config env_evening)).
Proof.
  destruct (default_names_fresh env_morning env_evening eq_refl eq_refl)
    as (H & _); [discriminate | exact H].
Defined.

Lemma gcloudSetup_stops_at_first_failure_witness :
  (exists e, fst (@gcloudSetup shell_offline (initial env_override))
             = inl (Rejected e))
  /\ st_trace (snd (@gcloudSetup shell_offline (initial env_override)))
     = [Sh "gcloud auth configure-docker" None]
  /\ (exists e, fst (@gcloudSetup shell_no_zone (initial env_override))
                = inl (Rejected e))
  /\ fst (@gcloudSetup shell_empty_registry (initial env_override)) = inr tt
  /\ commands (st_trace (snd (@gcloudSetup shell_empty_registry
                               (initial env_override))))
     = [ "gcloud auth configure-docker";
         "gcloud config set compute/region us-east1";
         "gcloud config set compute/zone us-east1-c" ].
Proof.
  pose proof (@gcloudSetup_stops_at_first_failure shell_offline
                (initial env_override)) as [H1 H2].
  pose proof (@gcloudSetup_stops_at_first_failure shell_no_zone
                (initial env_override)) as [H3 _].
  pose proof (@gcloudSetup_stops_at_first_failure shell_empty_registry
                (initial env_override)) as [H4 H5].
  split; [eexists; exact H1|]. split; [exact H2|].
  split; [eexists; exact H3|]. split; [exact H4|].
  cbv zeta in H5. unfold added in H5. cbn [List.length initial st_trace skipn] in H5.
  rewrite H5. reflexivity.
Defined.

Lemma updateStatus_one_status_per_group_witness :
  Forall2 (fun group out =>
             exists h, @sh_reply shell_empty_registry h
                         (describe_command group) None = inr out)
          (instance_groups (config_instance (config env_override)))
          ["DIGEST  TAGS  TIMESTAMP"; "DIGEST  TAGS  TIMESTAMP"].
Proof.
  destruct (@updateStatus_one_status_per_group shell_empty_registry
              (initial env_override)) as (_ & _ & H).
  exact (H _ eq_refl).
Defined.

End DeployMore.

(** ** The code-preview partial, continued *)

Module CodePreviewMore.
Import Text CodePreview CodePreviewFacts.

Section MoreRendering.
Context {page : Page}.

(** X15: the partial registers icons in side-frame mode only, and
    there exactly the portrait and the landscape icon, in this order. *)
Theorem icons_only_in_side_frame (p : Preview) (content : string) :
  icons_used (render p content)
  = if mode p =? "side-frame"
    then [ "/icons/orientation-portrait.svg";
           "/icons/orientation-landscape.svg" ]
    else [].
Proof.
  unfold render.
  destruct (mode p =? "none"), (mode p =? "inline"), (mode p =? "top-frame"),
    (mode p =? "side-frame"), (playground p); vm_compute; reflexivity.
Qed.

(** X14: the only values the partial writes unescaped are the rendered
    source, in inline mode and only there, and the content; the url, the
    index, the mode and the orientation always go through the escaping
    of the environment. *)
Theorem only_source_and_content_unescaped (p : Preview) (content : string) :
  safe_values (render p content)
  = ((if mode p =? "inline" then [render_filter (source p)] else [])
     ++ [content])%list.
Proof.
  unfold render.
  destruct (mode p =? "none"), (mode p =? "inline"), (mode p =? "top-frame"),
    (mode p =? "side-frame"), (playground p); vm_compute; reflexivity.
Qed.

(** X12: the wrapping container is written exactly when the mode is
    not [none], whatever else the mode is. With mode [none] the output
    is blank pieces, the content and the link, if any. With any other
    mode the output starts with the opening tag of the container, whose
    class is [ap-o-code-preview] followed by the mode, and after what is
    inside come its closing tag, a blank piece and the link, if any; the
    inside neither opens nor closes the container again. With a mode
    that is none of the four names the inside is blank pieces and the
    content: such a mode gets the container and no mode block. *)
Theorem wrapper_is_balanced (p : Preview) (content : string) :
  let out := render p content in
  let link := if playground p then playground_link p else [] in
  let open_tag := Markup (LF ++ unquote "<div class=`ap-o-code-preview ") in
  let open_end := Markup (unquote "`>" ++ LF) in
  let close_tag := Markup (LF ++ "</div>" ++ LF) in
  (mode p = "none" ->
     out = ([gap; gap; line; Safe content; gap; line; line] ++ link)%list)
  /\ (mode p <> "none" ->
      exists inner,
        out = ([open_tag; Expr (mode p); open_end] ++ inner
               ++ [close_tag; line] ++ link)%list
        /\ writes (unquote "class=`ap-o-code-preview ") inner = false
        /\ writes (unquote "class=`ap-o-code-preview`") inner = false
        /\ ~ In close_tag inner)
  /\ (mode p <> "none" -> mode p <> "inline" -> mode p <> "top-frame" ->
      mode p <> "side-frame" ->
      out = ([open_tag; Expr (mode p); open_end;
              gap; gap; line; Safe content; gap; line;
              close_tag; line] ++ link)%list).
Proof.
  intros out link open_tag open_end close_tag.
  subst out link open_tag open_end close_tag. unfold render.
  split; [|split].
  - intros H. rewrite H. reflexivity.
  - intros H. apply String.eqb_neq in H.
    unfold container_open, container_close. rewrite H. cbn [negb].
    exists ([gap]
            ++ (if mode p =? "inline" then inline_block p else [])
            ++ [gap]
            ++ (if mode p =? "top-frame" then top_frame_block p else [])
            ++ [line; Safe content; gap]
            ++ (if mode p =? "side-frame" then side_frame_block p else [])
            ++ [line])%list.
    split; [|split; [|split]].
    + rewrite <- !app_assoc. reflexivity.
    + destruct (mode p =? "inline"), (mode p =? "top-frame"),
        (mode p =? "side-frame"); vm_compute; reflexivity.
    + destruct (mode p =? "inline"), (mode p =? "top-frame"),
        (mode p =? "side-frame"); vm_compute; reflexivity.
    + intros HIn. apply In_existsb in HIn. revert HIn.
      destruct (mode p =? "inline"), (mode p =? "top-frame"),
        (mode p =? "side-frame"); vm_compute; discriminate.
  - intros H0 H1 H2 H3.
    apply String.eqb_neq in H0, H1, H2, H3.
    unfold container_open, container_close. rewrite H0, H1, H2, H3.
    reflexivity.
Qed.


(** X16: [preview.orientation] is read in top-frame mode only: in
    every other mode the output is the same whatever the orientation. *)
Theorem orientation_read_in_top_frame_only
        (p : Preview) (o : string) (content : string) :
  mode p <> "top-frame" ->
  render (with_orientation o p) content = render p content.
Proof.
  intros H. apply String.eqb_neq in H. unfold render.
  cbn [with_orientation mode playground]. rewrite H. reflexivity.
Qed.

(** X17: in the top-frame block the initial orientation is the one
    given, or landscape when none is given; the state written is [true]
    for landscape and [false] otherwise; of the two orientation buttons
    exactly one carries [hidden], the first unless the orientation is
    landscape and the second if it is, as their [hidden] bindings give it
    on that state; and the two classes written for the frame carry the
    initial orientation. *)
Theorem top_frame_initial_state (p : Preview) :
  let b := top_frame_block p in
  let json := unquote "<script type=`application/json`>" ++ LF ++ spaces 6 in
  (orientation p = EmptyString -> initial_orientation p = "landscape")
  /\ (orientation p <> EmptyString -> initial_orientation p = orientation p)
  /\ after_markup json b = [if is_landscape p then "true" else "false"]
  /\ after_markup "<button " b
     = (if is_landscape p then [EmptyString; "hidden"]
        else ["hidden"; EmptyString])
  /\ after_markup "ap-o-code-preview-preview-iframe-" b
     = [initial_orientation p]
  /\ after_markup "initial-" b = [initial_orientation p].
Proof.
  intros b json. subst b json.
  unfold top_frame_block, is_landscape, initial_orientation.
  destruct (orientation p) as [|c o] eqn:O; cbn [truthy].
  - split; [reflexivity|]. split; [now intros H|].
    vm_compute. repeat split.
  - split; [discriminate|]. split; [reflexivity|].
    destruct (String c o =? "landscape") eqn:E;
      cbn zeta; rewrite ?E; vm_compute; repeat split.
Qed.

End MoreRendering.


Lemma orientation_read_in_top_frame_only_witness :
  @render page_plain (with_orientation "portrait" (preview_of "side-frame"))
          "<pre>code</pre>"
  = @render page_plain (preview_of "side-frame") "<pre>code</pre>".
Proof.
  apply (@orientation_read_in_top_frame_only page_plain
           (preview_of "side-frame") "portrait" "<pre>code</pre>").
  discriminate.
Defined.

Lemma top_frame_initial_state_witness :
  after_markup "<button " (top_frame_block (preview_of "top-frame"))
  = [EmptyString; "hidden"]
  /\ after_markup "<button "
       (top_frame_block
          (with_orientation "portrait" (preview_of "top-frame")))
     = ["hidden"; EmptyString].
Proof.
  split.
  - destruct (top_frame_initial_state (preview_of "top-frame"))
      as (_ & _ & _ & H & _).
    exact H.
  - destruct (top_frame_initial_state
                (with_orientation "portrait" (preview_of "top-frame")))
      as (_ & _ & _ & H & _).
    exact H.
Defined.

Lemma wrapper_is_balanced_witness :
  @render page_plain (preview_of "carousel") "<pre>code</pre>"
  = ([ Markup (LF ++ unquote "<div class=`ap-o-code-preview ");
       Expr "carousel";
       Markup (unquote "`>" ++ LF);
       gap; gap; line; Safe "<pre>code</pre>"; gap; line;
       Markup (LF ++ "</div>" ++ LF); line ]
     ++ @playground_link page_plain (preview_of "carousel"))%list.
Proof.
  destruct (@wrapper_is_balanced page_plain (preview_of "carousel")
              "<pre>code</pre>") as (_ & _ & H).
  apply H; discriminate.
Defined.

End CodePreviewMore.
